(** * AI toll system: configuration, vehicle registry and ledger

    A shallow embedding of [src/main.cpp] (classes [ConfigManager], [Logger]
    and [TollSystem]) together with the properties its specification states
    about them.

    Conventions of the embedding.
    - A text file or an [std::istringstream] is a [string]; a stream carries
      the unread characters and the two state bits the code tests.
    - [std::map<std::string, T>] is [gmap string T].
    - A [double] is the rational a finite binary64 value denotes, kept in
      lowest terms so that equal values are equal terms.  A conversion from
      text rounds to the nearest binary64 and fails above the range of the
      type ([to_binary64]); infinities and NaN have no counterpart.
    - [int] is [Z]; [std::stoi] checks the 32-bit range itself.
    - Exceptions are values of type [exn] returned in a sum.
    - [FileManager] only builds paths: every function takes the content of
      the one file it opens, [None] standing for a file that cannot be
      opened, and gives back what it wrote; whether config.txt can be opened
      for writing is an input of the configuration load.  The clock is an
      input too: the broken-down local time of the call.
    - Of the image pipeline ([processVehicleByCamera]) only the names of
      the files it writes are modelled; the vision classes are elided from
      the source. *)

From Stdlib Require Import ZArith QArith Ascii String DecimalString DecimalN Lia.
From stdpp Require Import gmap strings list fin_maps.

(** ** Characters *)

Definition nl : ascii := "010"%char.
Definition comma : ascii := ","%char.
Definition equals_sign : ascii := "="%char.
Definition hash : ascii := "#"%char.

(** [std::isspace] in the "C" locale: space, \t, \n, \v, \f, \r. *)
Definition isspace (c : ascii) : bool :=
  let n := nat_of_ascii c in
  (n =? 32)%nat || ((9 <=? n)%nat && (n <=? 13)%nat).

Definition isdigit (c : ascii) : bool :=
  let n := nat_of_ascii c in (48 <=? n)%nat && (n <=? 57)%nat.

Definition digit_value (c : ascii) : Z := Z.of_nat (nat_of_ascii c) - 48.

Definition is_empty (s : string) : bool :=
  match s with EmptyString => true | String _ _ => false end.

(** ** Input streams *)

(** The unread characters and the [eofbit] and [failbit] of the stream state
    ([badbit] is never set on an in-memory or fully read text). *)
Record istream := Istream {
  buf : string;
  eofbit : bool;
  failbit : bool
}.

Definition open_on (text : string) : istream :=
  {| buf := text; eofbit := false; failbit := false |}.

(** [is.good()] *)
Definition good (st : istream) : bool := negb (eofbit st) && negb (failbit st).

(** The contextual conversion of a stream to [bool]: [!is.fail()]. *)
Definition ok (st : istream) : bool := negb (failbit st).

(** Characters up to the first [delim]; [Some rest] when the delimiter was
    found (it is extracted and dropped), [None] when the input ended first. *)
Fixpoint take_until (delim : ascii) (s : string) : string * option string :=
  match s with
  | EmptyString => (EmptyString, None)
  | String c s' =>
      if Ascii.eqb c delim then (EmptyString, Some s')
      else let '(w, r) := take_until delim s' in (String c w, r)
  end.

(** [std::getline(is, str, delim)].  The sentry fails on a stream that is not
    good; otherwise characters are taken up to the delimiter or the end of
    input, [eofbit] is set when the end is reached, and [failbit] when nothing
    at all was extracted (not even a delimiter).  The second component is the
    new content of [str]; the code reads it only after a success. *)
Definition getline (st : istream) (delim : ascii) : istream * string :=
  if good st then
    match take_until delim (buf st) with
    | (w, Some rest) => ({| buf := rest; eofbit := false; failbit := false |}, w)
    | (w, None) => ({| buf := EmptyString; eofbit := true; failbit := is_empty w |}, w)
    end
  else ({| buf := buf st; eofbit := eofbit st; failbit := true |}, EmptyString).

(** [while (std::getline(file, line)) ...]: the lines the loop body sees.
    Every successful call consumes at least one character, so the length of
    the text plus one bounds the number of iterations. *)
Fixpoint read_lines (fuel : nat) (st : istream) : list string :=
  match fuel with
  | O => []
  | S n =>
      let '(st', line) := getline st nl in
      if ok st' then line :: read_lines n st' else []
  end.

Definition read_all_lines (st : istream) : list string :=
  read_lines (S (String.length (buf st))) st.

Definition file_lines (text : string) : list string :=
  read_all_lines (open_on text).

(** ** Reading numbers *)

(** [double]: a finite binary64 value, as the rational it denotes in lowest
    terms. *)
Definition double : Type := Q.

(** [n/d] rounded to the nearest integer, ties to even. *)
Definition round_half_even (n d : Z) : Z :=
  let q := (n / d)%Z in
  let r := (n mod d)%Z in
  match (2 * r ?= d)%Z with
  | Lt => q
  | Gt => (q + 1)%Z
  | Eq => if Z.even q then q else (q + 1)%Z
  end.

(** [2^k <= n/d] for positive [n] and [d]. *)
Definition pow2_le (k : Z) (n d : Z) : bool :=
  if (0 <=? k)%Z then (2 ^ k * d <=? n)%Z else (d <=? n * 2 ^ (- k))%Z.

(** The binary exponent of a positive rational: [2^k <= n/d < 2^(k+1)]. *)
Definition floor_log2 (n d : positive) : Z :=
  let k := (Z.log2 (Z.pos n) - Z.log2 (Z.pos d))%Z in
  if pow2_le k (Z.pos n) (Z.pos d) then k else (k - 1)%Z.

(** The value [(-1)^neg * m * 2^e]. *)
Definition binary_value (neg : bool) (m e : Z) : Q :=
  let sm := if neg then (- m)%Z else m in
  Qred (if (0 <=? e)%Z then (sm * 2 ^ e)%Z # 1
        else sm # Z.to_pos (2 ^ (- e))).

(** The 53-bit significand of a positive rational [n/d] at exponent [e]:
    [n/d / 2^(e-52)] rounded to the nearest integer, ties to even. *)
Definition significand (n d : positive) (e : Z) : Z :=
  if (0 <=? 52 - e)%Z
  then round_half_even (Z.pos n * 2 ^ (52 - e)) (Z.pos d)
  else round_half_even (Z.pos n) (Z.pos d * 2 ^ (e - 52)).

(** The binary64 nearest to a rational (round to nearest, ties to even), as
    [strtod] computes it from a literal: 53 significant bits at an exponent
    of at least -1022, below which the spacing stays [2^-1074] (subnormals,
    down to zero).  [None]: the rounded value lies above the largest finite
    binary64 (overflow). *)
Definition to_binary64 (q : Q) : option double :=
  match Qnum q with
  | Z0 => Some 0%Q
  | Zpos n | Zneg n =>
      let e := Z.max (floor_log2 n (Qden q)) (-1022) in
      let m := significand n (Qden q) e in
      if (1024 <=? e)%Z || ((e =? 1023)%Z && (m =? 2 ^ 53)%Z) then None
      else Some (binary_value (match Qnum q with Zneg _ => true | _ => false end)
                              m (e - 52))
  end.

Fixpoint skip_ws (s : string) : string :=
  match s with
  | String c s' => if isspace c then skip_ws s' else s
  | EmptyString => EmptyString
  end.

Fixpoint take_digits (s : string) : string * string :=
  match s with
  | String c s' =>
      if isdigit c then let '(d, r) := take_digits s' in (String c d, r)
      else (EmptyString, s)
  | EmptyString => (EmptyString, EmptyString)
  end.

Fixpoint digits_value_from (acc : Z) (d : string) : Z :=
  match d with
  | EmptyString => acc
  | String c d' => digits_value_from (10 * acc + digit_value c) d'
  end.

Definition digits_value (d : string) : Z := digits_value_from 0 d.

Definition take_sign (s : string) : bool * string :=
  match s with
  | String c s' =>
      if Ascii.eqb c "-" then (true, s')
      else if Ascii.eqb c "+" then (false, s')
      else (false, s)
  | EmptyString => (false, s)
  end.

(** The value [(-1)^neg * m * 10^e]. *)
Definition decimal_value (neg : bool) (m e : Z) : Q :=
  let sm := if neg then (- m)%Z else m in
  Qred (if (0 <=? e)%Z then (sm * 10 ^ e)%Z # 1
        else sm # Z.to_pos (10 ^ (- e))).

Definition is_exp_char (c : ascii) : bool := Ascii.eqb c "e" || Ascii.eqb c "E".

(** The mantissa of a decimal floating literal: sign, digits, optional point
    and digits.  [None] when there is no digit at all. *)
Definition take_mantissa (s : string) : option (bool * string * string * string) :=
  let '(neg, s1) := take_sign s in
  let '(ip, s2) := take_digits s1 in
  let '(fp, s3) :=
    match s2 with
    | String c s' => if Ascii.eqb c "." then take_digits s' else (EmptyString, s2)
    | EmptyString => (EmptyString, s2)
    end in
  if is_empty ip && is_empty fp then None else Some (neg, ip, fp, s3).

(** The exact value of the literal with integer digits [ip], fraction digits
    [fp] and exponent [e]. *)
Definition mantissa_value (neg : bool) (ip fp : string) (e : Z) : Q :=
  decimal_value neg (digits_value (ip +:+ fp)) (e - Z.of_nat (String.length fp)).

(** The conversion of the accumulated characters, of exact value [q], with
    [rest] left unread: the nearest binary64; a value above the range of
    [double] makes the extraction fail. *)
Definition converted (q : Q) (rest : string) : option (double * string) :=
  match to_binary64 q with
  | Some v => Some (v, rest)
  | None => None
  end.

(** The characters [num_get] accumulates for a [double] and their value
    (the libstdc++ scanner: sign, digits, one point, and after a mantissa an
    [e] or [E] with its own optional sign and digits).  An exponent marker
    without digits makes the conversion of the accumulated text fail, and so
    does a value above the range of [double]. *)
Definition scan_float (s : string) : option (double * string) :=
  match take_mantissa s with
  | None => None
  | Some (neg, ip, fp, s3) =>
      match s3 with
      | String c s4 =>
          if is_exp_char c then
            let '(eneg, s5) := take_sign s4 in
            let '(ed, s6) := take_digits s5 in
            if is_empty ed then None
            else
              let e := if eneg then (- digits_value ed)%Z else digits_value ed in
              converted (mantissa_value neg ip fp e) s6
          else converted (mantissa_value neg ip fp 0) s3
      | EmptyString => converted (mantissa_value neg ip fp 0) EmptyString
      end
  end.

(** [is >> balance] for a [double].  The sentry skips white space and fails
    at the end of input; a failed conversion sets [failbit]; [eofbit] is set
    when the scanner ran into the end of input.  The code never reads the
    stream again after a failure (the [&&] chain stops) and drops the value,
    so neither the characters a failed extraction consumed nor the value it
    stored are tracked (0 stands for it). *)
Definition extract_double (st : istream) : istream * double :=
  if good st then
    match skip_ws (buf st) with
    | EmptyString => ({| buf := EmptyString; eofbit := true; failbit := true |}, 0%Q)
    | String _ _ as s =>
        match scan_float s with
        | Some (v, rest) =>
            ({| buf := rest; eofbit := is_empty rest; failbit := false |}, v)
        | None => ({| buf := s; eofbit := false; failbit := true |}, 0%Q)
        end
    end
  else ({| buf := buf st; eofbit := eofbit st; failbit := true |}, 0%Q).

(** ** Exceptions and the string conversions of <string> *)

Inductive exn := invalid_argument | out_of_range.

Definition isxdigit (c : ascii) : bool :=
  isdigit c
  || ((97 <=? nat_of_ascii c)%nat && (nat_of_ascii c <=? 102)%nat)
  || ((65 <=? nat_of_ascii c)%nat && (nat_of_ascii c <=? 70)%nat).

Definition xdigit_value (c : ascii) : Z :=
  if isdigit c then digit_value c
  else if (97 <=? nat_of_ascii c)%nat then (Z.of_nat (nat_of_ascii c) - 87)%Z
  else (Z.of_nat (nat_of_ascii c) - 55)%Z.

Fixpoint take_xdigits (s : string) : string * string :=
  match s with
  | String c s' =>
      if isxdigit c then let '(d, r) := take_xdigits s' in (String c d, r)
      else (EmptyString, s)
  | EmptyString => (EmptyString, EmptyString)
  end.

Fixpoint xdigits_value_from (acc : Z) (d : string) : Z :=
  match d with
  | EmptyString => acc
  | String c d' => xdigits_value_from (16 * acc + xdigit_value c) d'
  end.

(** The mantissa of a hexadecimal floating literal, after the sign: [0x] or
    [0X], hexadecimal digits, optional point and digits.  [None] when no
    digit follows the prefix (the [0] is then a decimal literal). *)
Definition take_hex_mantissa (s : string) : option (string * string * string) :=
  match s with
  | String z (String x s1) =>
      if Ascii.eqb z "0" && (Ascii.eqb x "x" || Ascii.eqb x "X") then
        let '(ip, s2) := take_xdigits s1 in
        let '(fp, s3) :=
          match s2 with
          | String c s' => if Ascii.eqb c "." then take_xdigits s' else (EmptyString, s2)
          | EmptyString => (EmptyString, s2)
          end in
        if is_empty ip && is_empty fp then None else Some (ip, fp, s3)
      else None
  | _ => None
  end.

Definition is_binexp_char (c : ascii) : bool := Ascii.eqb c "p" || Ascii.eqb c "P".

(** The exponent after a mantissa, when [marker] introduces one and digits
    follow it; 0 otherwise. *)
Definition take_exponent (marker : ascii -> bool) (s : string) : Z :=
  match s with
  | String c s4 =>
      if marker c then
        let '(eneg, s5) := take_sign s4 in
        let '(ed, _) := take_digits s5 in
        if is_empty ed then 0%Z
        else if eneg then (- digits_value ed)%Z else digits_value ed
      else 0%Z
  | EmptyString => 0%Z
  end.

(** [strtod] reports a range error, which [std::stod] turns into
    [std::out_of_range], when the value overflows and when it is tiny and
    inexact: below [2^-1022] also when rounded to 53 bits with an unbounded
    exponent (tininess after rounding, as glibc has it on x86-64), and not
    equal to the binary64 returned. *)
Definition is_tiny (q : Q) : bool :=
  match Qnum q with
  | Z0 => false
  | Zpos n | Zneg n =>
      let e := floor_log2 n (Qden q) in
      (e <? -1022)%Z
      && negb ((e =? -1023)%Z && (significand n (Qden q) e =? 2 ^ 53)%Z)
  end.

Definition strtod_value (q : Q) : exn + double :=
  match to_binary64 q with
  | None => inl out_of_range
  | Some v => if is_tiny q && negb (Qeq_bool v q) then inl out_of_range else inr v
  end.

(** [std::stod(value)], after glibc's [strtod]: leading white space is
    skipped, the longest decimal or hexadecimal floating literal is
    converted to the nearest binary64 and what follows it is ignored; an
    exponent marker counts only when digits follow it.  No digits at all:
    [std::invalid_argument]; a range error: [std::out_of_range].  The
    spellings of infinity and NaN, which [strtod] accepts, are rejected here
    like any other text without digits: their values have no counterpart in
    [double] as modelled.  The loader below takes the conversion as a
    parameter and is proved for every conversion function. *)
Definition std_stod (value : string) : exn + double :=
  let '(neg, s1) := take_sign (skip_ws value) in
  match take_hex_mantissa s1 with
  | Some (ip, fp, s3) =>
      strtod_value
        (binary_value neg (xdigits_value_from 0 (ip +:+ fp))
           (take_exponent is_binexp_char s3 - 4 * Z.of_nat (String.length fp)))
  | None =>
      match take_mantissa (skip_ws value) with
      | None => inl invalid_argument
      | Some (neg, ip, fp, s3) =>
          strtod_value (mantissa_value neg ip fp (take_exponent is_exp_char s3))
      end
  end.

Definition INT_MIN : Z := (- 2 ^ 31)%Z.
Definition INT_MAX : Z := (2 ^ 31 - 1)%Z.

(** [std::stoi(value)], after [strtol] in base 10: white space, an optional
    sign and the longest run of digits; no digits: [std::invalid_argument];
    a value outside [int]: [std::out_of_range]. *)
Definition std_stoi (value : string) : exn + Z :=
  let '(neg, s1) := take_sign (skip_ws value) in
  let '(d, _) := take_digits s1 in
  if is_empty d then inl invalid_argument
  else
    let v := if neg then (- digits_value d)%Z else digits_value d in
    if (INT_MIN <=? v)%Z && (v <=? INT_MAX)%Z then inr v else inl out_of_range.

(** ** SystemConfig and ConfigManager *)

Record SystemConfig := {
  tollRates : gmap string double;
  cameraResolutionWidth : Z;
  cameraResolutionHeight : Z;
  cameraFPS : Z
}.

Definition set_tollRate (class : string) (v : double) (config : SystemConfig) : SystemConfig :=
  {| tollRates := <[class := v]> (tollRates config);
     cameraResolutionWidth := cameraResolutionWidth config;
     cameraResolutionHeight := cameraResolutionHeight config;
     cameraFPS := cameraFPS config |}.

Definition set_cameraResolutionWidth (v : Z) (config : SystemConfig) : SystemConfig :=
  {| tollRates := tollRates config;
     cameraResolutionWidth := v;
     cameraResolutionHeight := cameraResolutionHeight config;
     cameraFPS := cameraFPS config |}.

Definition set_cameraResolutionHeight (v : Z) (config : SystemConfig) : SystemConfig :=
  {| tollRates := tollRates config;
     cameraResolutionWidth := cameraResolutionWidth config;
     cameraResolutionHeight := v;
     cameraFPS := cameraFPS config |}.

Definition set_cameraFPS (v : Z) (config : SystemConfig) : SystemConfig :=
  {| tollRates := tollRates config;
     cameraResolutionWidth := cameraResolutionWidth config;
     cameraResolutionHeight := cameraResolutionHeight config;
     cameraFPS := v |}.

(** The member [config] right after construction: an empty map, and three
    [int]s that no constructor initialises (any values). *)
Definition fresh_config (w h f : Z) : SystemConfig :=
  {| tollRates := ∅; cameraResolutionWidth := w;
     cameraResolutionHeight := h; cameraFPS := f |}.

Definition ends_line (s : string) : string := s +:+ String nl EmptyString.

(** The text [createDefaultConfig] writes. *)
Definition default_config_text : string :=
  ends_line "# Toll Rates" +:+
  ends_line "toll_rate_car=50.0" +:+
  ends_line "toll_rate_truck=100.0" +:+
  ends_line "toll_rate_bus=75.0" +:+
  ends_line "" +:+
  ends_line "# Camera Settings" +:+
  ends_line "camera_resolution_width=1920" +:+
  ends_line "camera_resolution_height=1080" +:+
  ends_line "camera_fps=30".

(** What a call leaves behind: the exception that left it, if any, the
    member [config], and the content of config.txt as far as the call knows
    it: the text it read or the text it wrote ([None]: it could neither read
    the file nor write it). *)
Record load_result := {
  thrown : option exn;
  config_after : SystemConfig;
  file_after : option string
}.

(** [createDefaultConfig]: opens config.txt for writing, sends the default
    text to the stream and sets the six values.  The stream is never tested:
    when the file cannot be opened for writing ([writable = false]) the text
    is lost and the call goes on all the same. *)
Definition createDefaultConfig (writable : bool) (config : SystemConfig) : load_result :=
  {| thrown := None;
     config_after :=
       set_cameraFPS 30
         (set_cameraResolutionHeight 1080
            (set_cameraResolutionWidth 1920
               (set_tollRate "bus" 75%Q
                  (set_tollRate "truck" 100%Q
                     (set_tollRate "car" 50%Q config)))));
     file_after := if writable then Some default_config_text else None |}.

Section ConfigManager.

Variable stod : string -> exn + double.
Variable stoi : string -> exn + Z.

(** The [if]/[else if] chain on [key].  In [config.tollRates["car"] =
    std::stod(value)] the right operand is evaluated first (C++17), so a
    throwing conversion leaves the map untouched. *)
Definition assign (key value : string) (config : SystemConfig) : exn + SystemConfig :=
  if String.eqb key "toll_rate_car" then
    match stod value with inl e => inl e | inr v => inr (set_tollRate "car" v config) end
  else if String.eqb key "toll_rate_truck" then
    match stod value with inl e => inl e | inr v => inr (set_tollRate "truck" v config) end
  else if String.eqb key "toll_rate_bus" then
    match stod value with inl e => inl e | inr v => inr (set_tollRate "bus" v config) end
  else if String.eqb key "camera_resolution_width" then
    match stoi value with inl e => inl e | inr v => inr (set_cameraResolutionWidth v config) end
  else if String.eqb key "camera_resolution_height" then
    match stoi value with inl e => inl e | inr v => inr (set_cameraResolutionHeight v config) end
  else if String.eqb key "camera_fps" then
    match stoi value with inl e => inl e | inr v => inr (set_cameraFPS v config) end
  else inr config.

Definition is_comment (line : string) : bool :=
  match line with String c _ => Ascii.eqb c hash | EmptyString => false end.

(** One iteration of the [while] loop of [loadConfig]. *)
Definition config_line (line : string) (config : SystemConfig) : exn + SystemConfig :=
  if is_empty line || is_comment line then inr config
  else
    let '(iss1, key) := getline (open_on line) equals_sign in
    if ok iss1 then
      let '(iss2, value) := getline iss1 nl in
      if ok iss2 then assign key value config else inr config
    else inr config.

(** The loop: an exception leaves it at once, with the assignments made
    so far in place. *)
Fixpoint config_lines (lines : list string) (config : SystemConfig)
  : option exn * SystemConfig :=
  match lines with
  | [] => (None, config)
  | line :: rest =>
      match config_line line config with
      | inl e => (Some e, config)
      | inr config' => config_lines rest config'
      end
  end.

(** [loadConfig]: [file] is the content of config.txt, [None] when it
    cannot be opened for reading; [writable] tells whether it can be opened
    for writing. *)
Definition loadConfig (writable : bool) (file : option string) (config : SystemConfig)
  : load_result :=
  match file with
  | None => createDefaultConfig writable config
  | Some text =>
      let '(e, config') := config_lines (file_lines text) config in
      {| thrown := e; config_after := config'; file_after := Some text |}
  end.

End ConfigManager.

(** ** Writing numbers and dates *)

Definition show_nat (n : nat) : string := NilEmpty.string_of_uint (Nat.to_uint n).

(** The decimal digits of a non-negative integer. *)
Definition show_N (n : Z) : string := NilEmpty.string_of_uint (N.to_uint (Z.to_N n)).

Fixpoint repeat_char (c : ascii) (n : nat) : string :=
  match n with O => EmptyString | S k => String c (repeat_char c k) end.

(** [%<width>d] (padding with spaces) and [%.<width>d] (padding with zeros)
    for a non-negative argument. *)
Definition pad_left (c : ascii) (width : nat) (s : string) : string :=
  repeat_char c (width - String.length s) +:+ s.

(** The fields of [struct tm] that [asctime] prints. *)
Record tm := {
  tm_sec : nat; tm_min : nat; tm_hour : nat;
  tm_mday : nat; tm_mon : nat; tm_year : nat; tm_wday : nat
}.

Definition wday_name (d : nat) : string :=
  nth d ["Sun"; "Mon"; "Tue"; "Wed"; "Thu"; "Fri"; "Sat"] "???".

Definition mon_name (m : nat) : string :=
  nth m ["Jan"; "Feb"; "Mar"; "Apr"; "May"; "Jun";
         "Jul"; "Aug"; "Sep"; "Oct"; "Nov"; "Dec"] "???".

(** The text [asctime] prints before its final newline; the format is
    that of the C standard, ["%.3s %.3s%3d %.2d:%.2d:%.2d %d\n"]. *)
Definition asctime_text (t : tm) : string :=
  wday_name (tm_wday t) +:+ " " +:+ mon_name (tm_mon t) +:+
  pad_left " " 3 (show_nat (tm_mday t)) +:+ " " +:+
  pad_left "0" 2 (show_nat (tm_hour t)) +:+ ":" +:+
  pad_left "0" 2 (show_nat (tm_min t)) +:+ ":" +:+
  pad_left "0" 2 (show_nat (tm_sec t)) +:+ " " +:+
  show_nat (1900 + tm_year t).

(** [std::ctime(&t)] is [asctime(localtime(&t))]; the local broken-down
    time is the input here.  The text ends with a newline. *)
Definition ctime (t : tm) : string := asctime_text t +:+ String nl EmptyString.

(** [10^e <= n/d] for positive [n] and [d]. *)
Definition pow10_le (e : Z) (n d : Z) : bool :=
  if (0 <=? e)%Z then (10 ^ e * d <=? n)%Z else (d <=? n * 10 ^ (- e))%Z.

(** The decimal exponent of a positive rational: [10^e <= n/d < 10^(e+1)]. *)
Definition floor_log10 (n d : positive) : Z :=
  let a := Z.of_nat (String.length (show_N (Z.pos n))) in
  let b := Z.of_nat (String.length (show_N (Z.pos d))) in
  if pow10_le (a - b) (Z.pos n) (Z.pos d) then (a - b)%Z else (a - b - 1)%Z.

Fixpoint strip_zeros_rev (s : list ascii) : list ascii :=
  match s with
  | c :: s' => if Ascii.eqb c "0" then strip_zeros_rev s' else s
  | [] => []
  end.

(** Removes the trailing zeros of a fraction. *)
Definition strip_trailing_zeros (s : string) : string :=
  string_of_list_ascii (rev (strip_zeros_rev (rev (list_ascii_of_string s)))).

Definition with_point (ip fp : string) : string :=
  if is_empty fp then ip else ip +:+ "." +:+ fp.

(** [os << v] for a [double] with the default flags: [%g] with precision 6. *)
Definition put_double (v : double) : string :=
  match Qnum v with
  | Z0 => "0"
  | Zpos n | Zneg n =>
      let sign := match Qnum v with Zneg _ => "-" | _ => "" end in
      let d := Qden v in
      let e0 := floor_log10 n d in
      let m0 :=
        if (0 <=? 5 - e0)%Z
        then round_half_even (Z.pos n * 10 ^ (5 - e0)) (Z.pos d)
        else round_half_even (Z.pos n) (Z.pos d * 10 ^ (e0 - 5)) in
      let '(m, e) := if (m0 =? 10 ^ 6)%Z then (10 ^ 5, e0 + 1)%Z else (m0, e0) in
      let digits := show_N m in
      if (e <? -4)%Z || (6 <=? e)%Z then
        sign +:+ with_point (substring 0 1 digits) (strip_trailing_zeros (substring 1 5 digits))
             +:+ "e" +:+ (if (e <? 0)%Z then "-" else "+")
             +:+ pad_left "0" 2 (show_N (Z.abs e))
      else if (0 <=? e)%Z then
        let k := S (Z.to_nat e) in
        sign +:+ with_point (substring 0 k digits) (strip_trailing_zeros (substring k (6 - k) digits))
      else
        sign +:+ "0." +:+ repeat_char "0" (Z.to_nat (- e - 1)) +:+ strip_trailing_zeros digits
  end.

(** ** Logger *)

(** The two files behind the [std::ofstream] members.  Both are opened in
    append mode and flushed after each record, so a write extends the file
    content at its end. *)
Record Logger := {
  transactionLog : string;
  errorLog : string
}.

Definition transaction_header : string :=
  ends_line "timestamp,vehicle_id,payment_method,amount,balance_remaining".

(** The constructor: the header goes into a transaction log that is still
    empty ([tellp() == 0] on a file opened for appending). *)
Definition Logger_new (transactions errors : string) : Logger :=
  {| transactionLog := if is_empty transactions then transaction_header else transactions;
     errorLog := errors |}.

(** [logTransaction]; [nowTime] is the time the clock gives inside the call. *)
Definition logTransaction (nowTime : tm) (vehicleId paymentMethod : string)
    (amount balanceRemaining : double) (lg : Logger) : Logger :=
  {| transactionLog :=
       transactionLog lg +:+ ctime nowTime +:+ "," +:+
       vehicleId +:+ "," +:+
       paymentMethod +:+ "," +:+
       put_double amount +:+ "," +:+
       put_double balanceRemaining +:+ String nl EmptyString;
     errorLog := errorLog lg |}.

(** [logError] *)
Definition logError (nowTime : tm) (error : string) (lg : Logger) : Logger :=
  {| transactionLog := transactionLog lg;
     errorLog := errorLog lg +:+ ctime nowTime +:+ ": " +:+ error +:+ String nl EmptyString |}.

(** ** Vehicle *)

Inductive VehicleClass := car | truck | bus | unknown.

(** Modelled from the spec: the [Vehicle] class, whose definition the source
    elides ("Previous Vehicle and VehicleImage classes remain the same").
    The fields are those of the spec's data model. *)
Record Vehicle := {
  plate : string;
  rfidTag : string;
  vehicleClass : VehicleClass;
  balance : double
}.

(** Modelled from the spec: the class a [type] column stands for; values
    other than car, truck and bus pass through as the unknown class. *)
Definition class_of_type (type : string) : VehicleClass :=
  if String.eqb type "car" then car
  else if String.eqb type "truck" then truck
  else if String.eqb type "bus" then bus
  else unknown.

(** Modelled from the spec: the constructor [Vehicle(plate, rfid, balance,
    type)] called by [loadRegisteredVehicles]. *)
Definition Vehicle_new (plate rfid : string) (balance : double) (type : string) : Vehicle :=
  {| plate := plate; rfidTag := rfid;
     vehicleClass := class_of_type type; balance := balance |}.

(** ** TollSystem: loading the registry *)

Record TollSystem := {
  logger : Logger;
  configManager : SystemConfig;
  registeredVehicles : gmap string Vehicle
}.

(** The condition of the [if] in the loop of [loadRegisteredVehicles] on
    one line: the four extractions joined by [&&], and on success the values
    of [plate], [rfid], [balance] and [type]. *)
Definition parse_row (line : string) : option (string * string * double * string) :=
  let iss := open_on line in
  let '(iss1, plate) := getline iss comma in
  if ok iss1 then
    let '(iss2, rfid) := getline iss1 comma in
    if ok iss2 then
      let '(iss3, balance) := extract_double iss2 in
      if ok iss3 then
        let '(iss4, type) := getline iss3 comma in
        if ok iss4 then Some (plate, rfid, balance, type) else None
      else None
    else None
  else None.

(** The body of the loop: [registeredVehicles[rfid] = vehicle]. *)
Definition load_row (vehicles : gmap string Vehicle) (line : string) : gmap string Vehicle :=
  match parse_row line with
  | Some (plate, rfid, balance, type) =>
      <[rfid := Vehicle_new plate rfid balance type]> vehicles
  | None => vehicles
  end.

Definition load_rows (lines : list string) (vehicles : gmap string Vehicle)
  : gmap string Vehicle :=
  fold_left load_row lines vehicles.

(** [loadRegisteredVehicles]; [file] is the content of
    registered_vehicles.csv, [None] when it cannot be opened, and [nowTime]
    the time stamped on the error record. *)
Definition loadRegisteredVehicles (nowTime : tm) (file : option string)
    (sys : TollSystem) : TollSystem :=
  match file with
  | None =>
      {| logger := logError nowTime "Could not open registered vehicles file" (logger sys);
         configManager := configManager sys;
         registeredVehicles := registeredVehicles sys |}
  | Some text =>
      let vehicleFile := open_on text in
      (* Skip header *)
      let '(vehicleFile, _) := getline vehicleFile nl in
      {| logger := logger sys;
         configManager := configManager sys;
         registeredVehicles :=
           load_rows (read_all_lines vehicleFile) (registeredVehicles sys) |}
  end.

(** ** The registry operations and the transaction processor *)

Inductive ChargeResult := Charged (newBalance : double) | InsufficientFunds.

(** Modelled from the spec: [lookup(identifier)], which the source does not
    contain: the RFID key is tried first, then the plate. *)
Definition lookup (vehicles : gmap string Vehicle) (identifier : string)
  : option (string * Vehicle) :=
  match vehicles !! identifier with
  | Some v => Some (identifier, v)
  | None =>
      List.find (fun kv => String.eqb (plate (snd kv)) identifier) (map_to_list vehicles)
  end.

(** Modelled from the spec: [charge(vehicle, amount)], which the source does
    not contain: the balance decreases by [amount] only if [balance >=
    amount]; otherwise the typed failure is returned and nothing changes.
    The vehicle is named by its registry key. *)
Definition charge (vehicles : gmap string Vehicle) (key : string) (amount : double)
  : gmap string Vehicle * option ChargeResult :=
  match vehicles !! key with
  | None => (vehicles, None)
  | Some v =>
      if Qle_bool amount (balance v) then
        let b := Qred (balance v - amount) in
        (<[key := {| plate := plate v; rfidTag := rfidTag v;
                     vehicleClass := vehicleClass v; balance := b |}]> vehicles,
         Some (Charged b))
      else (vehicles, Some InsufficientFunds)
  end.

Inductive PaymentMethod := pay_rfid | pay_anpr_billing.

Record TransactionRecord := {
  timestamp : tm;
  vehicleIdentifier : string;
  paymentMethod : PaymentMethod;
  amountCharged : double;
  balanceRemaining : double
}.

Record ErrorRecord := {
  error_timestamp : tm;
  message : string
}.

Inductive TransactionResult :=
  | accepted (newBalance : double)
  | rejected_unregistered
  | rejected_insufficient_funds.

Inductive Outcome := Success | Failure (reason : string).

(** The states of one transaction attempt (spec, 4.3). *)
Inductive Phase :=
  | Start | IdentityResolved | VehicleLookup | RateResolved
  | ChargeAttempted | Logged (o : Outcome) | Done.

Record Processor := {
  registry : gmap string Vehicle;
  rateTable : gmap string double;
  ledger : list TransactionRecord;
  errors : list ErrorRecord
}.

Definition class_name (c : VehicleClass) : string :=
  match c with car => "car" | truck => "truck" | bus => "bus" | unknown => "unknown" end.

Section Processor.

(** The rate charged when the table has no entry for the class; the spec
    leaves its value to the implementer. *)
Variable fallback_rate : double.

Definition resolve_rate (rates : gmap string double) (c : VehicleClass) : double :=
  default fallback_rate (rates !! class_name c).

(** Modelled from the spec: the transaction processor
    ([processVehicleByANPR] and its RFID sibling are not in the source).
    One attempt runs the state machine of 4.3 to [Done]; the result is the
    new state, the typed result and the states passed through. *)
Definition process (now : tm) (method : PaymentMethod) (identifier : string)
    (p : Processor) : Processor * TransactionResult * list Phase :=
  match lookup (registry p) identifier with
  | None =>
      ({| registry := registry p; rateTable := rateTable p; ledger := ledger p;
          errors := errors p ++
            [{| error_timestamp := now;
                message := "unregistered vehicle: " +:+ identifier |}] |},
       rejected_unregistered,
       [Start; IdentityResolved; VehicleLookup;
        Logged (Failure "unregistered vehicle"); Done])
  | Some (key, v) =>
      let rate := resolve_rate (rateTable p) (vehicleClass v) in
      match charge (registry p) key rate with
      | (vehicles, Some (Charged b)) =>
          ({| registry := vehicles; rateTable := rateTable p;
              ledger := ledger p ++
                [{| timestamp := now; vehicleIdentifier := identifier;
                    paymentMethod := method; amountCharged := rate;
                    balanceRemaining := b |}];
              errors := errors p |},
           accepted b,
           [Start; IdentityResolved; VehicleLookup; RateResolved;
            ChargeAttempted; Logged Success; Done])
      | (vehicles, _) =>
          ({| registry := vehicles; rateTable := rateTable p; ledger := ledger p;
              errors := errors p ++
                [{| error_timestamp := now;
                    message := "insufficient balance: " +:+ identifier |}] |},
           rejected_insufficient_funds,
           [Start; IdentityResolved; VehicleLookup; RateResolved;
            ChargeAttempted; Logged (Failure "insufficient balance"); Done])
      end
  end.

End Processor.

(** ** Vocabulary of the specification *)

(** [c] does not occur in [s]. *)
Fixpoint no_char (c : ascii) (s : string) : bool :=
  match s with
  | EmptyString => true
  | String a s' => negb (Ascii.eqb a c) && no_char c s'
  end.

Fixpoint all_digits (s : string) : bool :=
  match s with
  | EmptyString => true
  | String a s' => isdigit a && all_digits s'
  end.


(** A text file made of the given lines, each ended by a newline. *)
Fixpoint join_lines (lines : list string) : string :=
  match lines with
  | [] => EmptyString
  | l :: ls => l +:+ String nl (join_lines ls)
  end.

(** The comma-separated fields of a row. *)
Fixpoint split_fields (s : string) : list string :=
  match s with
  | EmptyString => [EmptyString]
  | String c s' =>
      if Ascii.eqb c comma then EmptyString :: split_fields s'
      else
        match split_fields s' with
        | f :: fs => String c f :: fs
        | [] => [String c EmptyString]
        end
  end.

(** A decimal: an optional minus sign, digits, and optionally a point
    followed by digits. *)
Definition is_decimal (s : string) : bool :=
  let body :=
    match s with
    | String c s' => if Ascii.eqb c "-" then s' else s
    | EmptyString => s
    end in
  match take_until "." body with
  | (ip, None) => negb (is_empty ip) && all_digits ip
  | (ip, Some fp) =>
      negb (is_empty ip) && all_digits ip && negb (is_empty fp) && all_digits fp
  end.

(** The rational a decimal stands for: its digits, without the point, over
    ten to the number of digits after the point, negated after a minus
    sign. *)
Definition decimal_of (b : string) : Q :=
  let neg := match b with String c _ => Ascii.eqb c "-" | EmptyString => false end in
  let body :=
    match b with
    | String c s' => if Ascii.eqb c "-" then s' else b
    | EmptyString => b
    end in
  match take_until "." body with
  | (ip, Some fp) =>
      decimal_value neg (digits_value (ip +:+ fp)) (0 - Z.of_nat (String.length fp))
  | (ip, None) => decimal_value neg (digits_value ip) 0
  end.

(** A well-formed registry row [plate,rfid,balance,type]: four fields, the
    third a decimal. *)
Definition well_formed_row (line : string) : bool :=
  match split_fields line with
  | [_; _; b; _] => is_decimal b
  | _ => false
  end.



Definition row_plate (line : string) : string :=
  nth 0 (split_fields line) EmptyString.

Definition row_rfid (line : string) : string :=
  nth 1 (split_fields line) EmptyString.

Definition row_balance (line : string) : string :=
  nth 2 (split_fields line) EmptyString.




(** The vehicles that the rows accepted by [parse_row] describe, in file
    order. *)
Definition accepted_rows (lines : list string) : list Vehicle :=
  omap (fun line =>
          match parse_row line with
          | Some (plate, rfid, balance, type) => Some (Vehicle_new plate rfid balance type)
          | None => None
          end) lines.

(** The lines of a registry source that follow its first line. *)
Definition data_lines (text : string) : list string :=
  read_all_lines (fst (getline (open_on text) nl)).

(** The last vehicle of a list that carries the given rfid. *)
Definition last_with_rfid (id : string) (vs : list Vehicle) : option Vehicle :=
  last (filter (fun v => rfidTag v = id) vs).

(** A [TollSystem] whose registry is still empty, as the constructor has it
    when it calls [loadRegisteredVehicles]. *)
Definition empty_system (lg : Logger) (config : SystemConfig) : TollSystem :=
  {| logger := lg; configManager := config; registeredVehicles := ∅ |}.

(** ** Sample inputs *)

Definition sample_time : tm :=
  {| tm_sec := 5; tm_min := 31; tm_hour := 1; tm_mday := 3;
     tm_mon := 10; tm_year := 126; tm_wday := 2 |}.

Definition registry_header : string := "plate,rfid,balance,type".

(** The registry file shown in the README. *)
Definition readme_registry : string :=
  join_lines [registry_header;
              "ABC123,RF1234567,100.0,car";
              "XYZ789,RF7654321,250.0,truck"].

(** Two well-formed rows that carry the same rfid. *)
Definition duplicate_rfid_registry : string :=
  join_lines [registry_header;
              "ABC123,RF1,100.0,car";
              "XYZ789,RF1,250.0,truck"].






Definition new_system : TollSystem :=
  empty_system (Logger_new EmptyString EmptyString) (fresh_config 0 0 0).



(** ** Auxiliary notions of the proofs *)

(** The next character, if any, is not a digit. *)
Definition stops_digits (s : string) : Prop :=
  match s with String c _ => isdigit c = false | EmptyString => True end.

(** The rest of a row after a field: nothing, or a comma and more. *)
Definition field_end (s : string) : Prop :=
  match s with String c _ => c = comma | EmptyString => True end.


Definition insert_vehicle (m : gmap string Vehicle) (v : Vehicle) : gmap string Vehicle :=
  <[rfidTag v := v]> m.

(** ** Configuration lines *)

Definition key_value_line (key value : string) : string :=
  key +:+ String equals_sign value.

(** The text before the first [=] of a line. *)
Definition line_key (line : string) : string := fst (take_until equals_sign line).

Definition is_rate_key (key : string) : bool :=
  String.eqb key "toll_rate_car" || String.eqb key "toll_rate_truck"
  || String.eqb key "toll_rate_bus".

Definition is_camera_key (key : string) : bool :=
  String.eqb key "camera_resolution_width" || String.eqb key "camera_resolution_height"
  || String.eqb key "camera_fps".

(** One assignment of [loadConfig] with the converted value. *)
Inductive setter :=
  | SetRate (class : string) (v : double)
  | SetWidth (v : Z)
  | SetHeight (v : Z)
  | SetFPS (v : Z).

Definition apply_setter (config : SystemConfig) (u : setter) : SystemConfig :=
  match u with
  | SetRate class v => set_tollRate class v config
  | SetWidth v => set_cameraResolutionWidth v config
  | SetHeight v => set_cameraResolutionHeight v config
  | SetFPS v => set_cameraFPS v config
  end.

(** What a line does, whatever the configuration it meets. *)
Inductive action := Skip | Raise (e : exn) | Assign (u : setter).

Section Actions.

Variable stod : string -> exn + double.
Variable stoi : string -> exn + Z.

Definition convert {A} (r : exn + A) (f : A -> setter) : action :=
  match r with inl e => Raise e | inr v => Assign (f v) end.

Definition key_action (key value : string) : action :=
  if String.eqb key "toll_rate_car" then convert (stod value) (SetRate "car")
  else if String.eqb key "toll_rate_truck" then convert (stod value) (SetRate "truck")
  else if String.eqb key "toll_rate_bus" then convert (stod value) (SetRate "bus")
  else if String.eqb key "camera_resolution_width" then convert (stoi value) SetWidth
  else if String.eqb key "camera_resolution_height" then convert (stoi value) SetHeight
  else if String.eqb key "camera_fps" then convert (stoi value) SetFPS
  else Skip.

Definition line_action (line : string) : action :=
  if is_empty line || is_comment line then Skip
  else
    let '(iss1, key) := getline (open_on line) equals_sign in
    if ok iss1 then
      let '(iss2, value) := getline iss1 nl in
      if ok iss2 then key_action key value else Skip
    else Skip.

(** The assignments made before the first exception, and that exception. *)
Fixpoint run_actions (lines : list string) : list setter * option exn :=
  match lines with
  | [] => ([], None)
  | line :: rest =>
      match line_action line with
      | Skip => run_actions rest
      | Raise e => ([], Some e)
      | Assign u => let '(us, e) := run_actions rest in (u :: us, e)
      end
  end.

End Actions.

Fixpoint last_rate (class : string) (us : list setter) : option double :=
  match us with
  | [] => None
  | u :: us' =>
      match last_rate class us' with
      | Some v => Some v
      | None =>
          match u with
          | SetRate k v => if String.eqb k class then Some v else None
          | _ => None
          end
      end
  end.

Fixpoint last_width (us : list setter) : option Z :=
  match us with
  | [] => None
  | u :: us' =>
      match last_width us' with
      | Some v => Some v
      | None => match u with SetWidth v => Some v | _ => None end
      end
  end.

Fixpoint last_height (us : list setter) : option Z :=
  match us with
  | [] => None
  | u :: us' =>
      match last_height us' with
      | Some v => Some v
      | None => match u with SetHeight v => Some v | _ => None end
      end
  end.

Fixpoint last_fps (us : list setter) : option Z :=
  match us with
  | [] => None
  | u :: us' =>
      match last_fps us' with
      | Some v => Some v
      | None => match u with SetFPS v => Some v | _ => None end
      end
  end.

Definition is_some {A} (o : option A) : bool :=
  match o with Some _ => true | None => false end.

(** The source assigns the three camera settings (before any line that
    raises). *)
Definition sets_camera_values (stod : string -> exn + double) (stoi : string -> exn + Z)
    (text : string) : bool :=
  let us := fst (run_actions stod stoi (file_lines text)) in
  is_some (last_width us) && is_some (last_height us) && is_some (last_fps us).

(** A configuration whose first line gives a toll rate that is not a
    number. *)
Definition bad_rate_config : string :=
  join_lines ["toll_rate_car=abc"; "toll_rate_truck=100.0"].

(** The configuration [createDefaultConfig] sets, starting from a new
    [ConfigManager]. *)
Definition default_config : SystemConfig :=
  {| tollRates := <["bus" := 75%Q]> (<["truck" := 100%Q]> (<["car" := 50%Q]> ∅));
     cameraResolutionWidth := 1920;
     cameraResolutionHeight := 1080;
     cameraFPS := 30 |}.

(** The vehicle and the processor of the spec's scenarios A to D. *)
Definition scenario_vehicle : Vehicle :=
  {| plate := "ABC123"; rfidTag := "RF1"; vehicleClass := car; balance := 100%Q |}.

Definition scenario_processor : Processor :=
  {| registry := {["RF1" := scenario_vehicle]};
     rateTable := {["car" := 50%Q]};
     ledger := [];
     errors := [] |}.

(** ** FileManager *)

Record FileManager := { baseDir : string }.

(** The constructor's default argument. *)
Definition FileManager_default : FileManager := {| baseDir := "ai_toll_system" |}.

(** The [dirs] vector of [createDirectoryStructure]. *)
Definition dirs : list string :=
  ["config"; "data"; "data/tessdata"; "logs";
   "output/captured_plates"; "output/processed_images"; "output/daily_summaries"].

(** [createDirectoryStructure]: the paths handed to
    [fs::create_directories], in the order of the loop. *)
Definition createDirectoryStructure (fm : FileManager) : list string :=
  map (fun dir => (baseDir fm +:+ "/") +:+ dir) dirs.

Definition getConfigPath (fm : FileManager) (filename : string) : string :=
  (baseDir fm +:+ "/config/") +:+ filename.

Definition getLogPath (fm : FileManager) (filename : string) : string :=
  (baseDir fm +:+ "/logs/") +:+ filename.

Definition getOutputPath (fm : FileManager) (subdir filename : string) : string :=
  (((baseDir fm +:+ "/output/") +:+ subdir) +:+ "/") +:+ filename.

(** A file name proper: not empty, without a separator, and neither of the
    names [.] and [..], which stand for directories. *)
Definition plain_name (filename : string) : bool :=
  negb (is_empty filename) && no_char "/" filename
  && negb (String.eqb filename ".") && negb (String.eqb filename "..").

(** A path names a file that lies directly in a directory: the directory,
    one separator and a file name proper. *)
Definition file_in (dir path : string) : Prop :=
  exists filename, plain_name filename = true /\ path = dir +:+ "/" +:+ filename.

(** ** Characters of the records *)

Fixpoint chars_in (allowed : ascii -> bool) (s : string) : bool :=
  match s with
  | EmptyString => true
  | String c s' => allowed c && chars_in allowed s'
  end.





(** ** Lines that [loadConfig] passes over *)

(** A line that is empty, starts with a hash, has no equals sign, has
    nothing after its first equals sign, or has a key that is not one of the
    six. *)
Definition skipped_line (line : string) : bool :=
  is_empty line || is_comment line ||
  match take_until equals_sign line with
  | (_, None) => true
  | (key, Some value) => is_empty value || negb (is_rate_key key || is_camera_key key)
  end.

(** The classes whose rate [loadConfig] or [createDefaultConfig] can set. *)
Definition rate_classes : list string := ["car"; "truck"; "bus"].

Definition sets_known_rate (u : setter) : Prop :=
  match u with SetRate class _ => class ∈ rate_classes | _ => True end.

(** An entry of the registry is filed under the rfid of its vehicle, and
    neither the rfid nor the plate holds a comma. *)
Definition well_keyed (k : string) (v : Vehicle) : Prop :=
  rfidTag v = k /\ no_char comma k = true /\ no_char comma (plate v) = true.

(** ** The file names of [processVehicleByCamera] *)

(** [std::to_string] of the tick count of the clock (a signed integer). *)
Definition to_string (n : Z) : string :=
  match n with
  | Zneg p => "-" +:+ show_N (Z.pos p)
  | _ => show_N n
  end.

(** The path of the first [cv::imwrite] of [processVehicleByCamera], for
    the tick count read at the start of the call. *)
Definition vehicle_image_path (fm : FileManager) (ticks : Z) : string :=
  getOutputPath fm "processed_images" (("vehicle_" +:+ to_string ticks) +:+ ".jpg").

(** The path of its second [cv::imwrite]. *)
Definition plate_image_path (fm : FileManager) (ticks : Z) : string :=
  getOutputPath fm "captured_plates" (("plate_" +:+ to_string ticks) +:+ ".jpg").

(** ** A sequence of calls of [logTransaction] *)






(** * Properties *)

(** ** Streams and lines *)

Lemma take_until_found d w rest :
  no_char d w = true -> take_until d (w +:+ String d rest) = (w, Some rest).
Proof.
  induction w as [|a w IH]; simpl; intros H.
  - by rewrite Ascii.eqb_refl.
  - apply andb_prop in H as [Ha Hw].
    apply negb_true_iff in Ha. rewrite Ha, (IH Hw). done.
Qed.

Lemma take_until_end d w : no_char d w = true -> take_until d w = (w, None).
Proof.
  induction w as [|a w IH]; simpl; intros H; [done|].
  apply andb_prop in H as [Ha Hw].
  apply negb_true_iff in Ha. rewrite Ha, (IH Hw). done.
Qed.

Lemma take_until_Some_inv d s w rest :
  take_until d s = (w, Some rest) ->
  s = w +:+ String d rest /\ no_char d w = true.
Proof.
  revert w. induction s as [|a s IH]; simpl; intros w H; [done|].
  destruct (Ascii.eqb a d) eqn:E.
  - apply Ascii.eqb_eq in E. by simplify_eq.
  - destruct (take_until d s) as [w' r'] eqn:T. simplify_eq.
    destruct (IH w' eq_refl) as [-> Hn]. simpl. by rewrite E, Hn.
Qed.

Lemma take_until_None_inv d s w :
  take_until d s = (w, None) -> s = w /\ no_char d w = true.
Proof.
  revert w. induction s as [|a s IH]; simpl; intros w H.
  - by simplify_eq.
  - destruct (Ascii.eqb a d) eqn:E; [done|].
    destruct (take_until d s) as [w' r'] eqn:T. simplify_eq.
    destruct (IH w' eq_refl) as [-> Hn]. simpl. by rewrite E, Hn.
Qed.

Lemma take_until_shorter d s w rest :
  take_until d s = (w, Some rest) -> String.length rest < String.length s.
Proof.
  revert w. induction s as [|a s IH]; simpl; intros w H; [done|].
  destruct (Ascii.eqb a d).
  - simplify_eq. lia.
  - destruct (take_until d s) as [w' r'] eqn:T. simplify_eq.
    specialize (IH w' eq_refl). lia.
Qed.

Lemma string_length_app s t :
  String.length (s +:+ t) = String.length s + String.length t.
Proof. induction s; simpl; [done|]. by rewrite IHs. Qed.

(** Any fuel above the number of unread characters gives the same lines. *)
Lemma read_lines_enough n m st :
  String.length (buf st) < n -> String.length (buf st) < m ->
  read_lines n st = read_lines m st.
Proof.
  revert m st. induction n as [|n IH]; intros m st Hn Hm; [lia|].
  destruct m as [|m]; [lia|]. simpl.
  unfold getline. destruct (good st); [|done].
  destruct (take_until nl (buf st)) as [w [rest|]] eqn:T; simpl.
  - apply take_until_shorter in T. unfold ok; simpl.
    f_equal. apply IH; simpl; lia.
  - unfold ok; simpl. destruct (is_empty w); simpl; [done|].
    f_equal. destruct n, m; simpl; try done.
Qed.

Lemma read_lines_unfold n st :
  read_lines (S n) st =
  let '(st', line) := getline st nl in
  if ok st' then line :: read_lines n st' else [].
Proof. done. Qed.

Lemma getline_found d w rest :
  no_char d w = true ->
  getline (open_on (w +:+ String d rest)) d = (open_on rest, w).
Proof. intros H. unfold getline. simpl. by rewrite (take_until_found _ _ rest H). Qed.

Lemma getline_end d w :
  no_char d w = true ->
  getline (open_on w) d =
  ({| buf := EmptyString; eofbit := true; failbit := is_empty w |}, w).
Proof. intros H. unfold getline. simpl. by rewrite (take_until_end _ _ H). Qed.

(** Nothing more is read from a stream that is not good. *)
Lemma read_lines_not_good n st : good st = false -> read_lines n st = [].
Proof.
  intros H. destruct n; [done|]. rewrite read_lines_unfold.
  unfold getline. rewrite H. done.
Qed.

Lemma file_lines_empty : file_lines EmptyString = [].
Proof. done. Qed.

Lemma file_lines_cons l rest :
  no_char nl l = true -> file_lines (l +:+ String nl rest) = l :: file_lines rest.
Proof.
  intros H. unfold file_lines at 1. unfold read_all_lines.
  rewrite read_lines_unfold, (getline_found _ _ _ H).
  change (ok (open_on rest)) with true. cbv iota. f_equal.
  apply read_lines_enough; cbn [buf open_on]; [|lia].
  rewrite string_length_app. simpl. lia.
Qed.

Lemma file_lines_join lines :
  Forall (fun l => no_char nl l = true) lines -> file_lines (join_lines lines) = lines.
Proof.
  induction 1 as [|l ls Hl _ IH]; simpl; [done|].
  by rewrite (file_lines_cons _ _ Hl), IH.
Qed.

Lemma data_lines_cons first rest :
  no_char nl first = true -> data_lines (first +:+ String nl rest) = file_lines rest.
Proof. intros H. unfold data_lines. by rewrite (getline_found _ _ _ H). Qed.

Lemma data_lines_single first :
  no_char nl first = true -> data_lines first = [].
Proof.
  intros H. unfold data_lines. rewrite (getline_end _ _ H).
  by apply read_lines_not_good.
Qed.

(** ** Characters of a number *)

Lemma digit_not_space c : isdigit c = true -> isspace c = false.
Proof. destruct c as [[] [] [] [] [] [] [] []]; vm_compute; done. Qed.

Lemma digit_not_sign c :
  isdigit c = true -> Ascii.eqb c "-" = false /\ Ascii.eqb c "+" = false.
Proof. destruct c as [[] [] [] [] [] [] [] []]; vm_compute; done. Qed.




Lemma field_end_stops_digits s : field_end s -> stops_digits s.
Proof. destruct s as [|c s]; simpl; [done|]. by intros ->. Qed.

Lemma take_digits_app d s :
  all_digits d = true -> stops_digits s -> take_digits (d +:+ s) = (d, s).
Proof.
  intros Hd Hs. induction d as [|c d IH]; simpl in *.
  - destruct s as [|c s]; simpl in *; [done|]. by rewrite Hs.
  - apply andb_prop in Hd as [Hc Hd]. by rewrite Hc, (IH Hd).
Qed.

Lemma string_app_cons a s t : String a s +:+ t = String a (s +:+ t).
Proof. done. Qed.

Lemma string_app_nil_r s : s +:+ EmptyString = s.
Proof. induction s as [|a s IH]; [done|]. by rewrite string_app_cons, IH. Qed.

Lemma string_app_assoc s t u : (s +:+ t) +:+ u = s +:+ (t +:+ u).
Proof. induction s as [|a s IH]; [done|]. by rewrite !string_app_cons, IH. Qed.

(** A decimal starts with a digit or a minus sign. *)
Lemma decimal_starts b s :
  is_decimal b = true ->
  skip_ws (b +:+ s) = b +:+ s /\ is_empty (b +:+ s) = false.
Proof.
  intros Hb. unfold is_decimal in Hb.
  set (body := match b with
               | String c s' => if Ascii.eqb c "-" then s' else b
               | EmptyString => b
               end) in Hb.
  destruct (take_until "." body) as [ip r] eqn:T.
  assert (Hip : is_empty ip = false /\ all_digits ip = true).
  { destruct r; repeat (apply andb_prop in Hb as [Hb ?]);
      rewrite ?negb_true_iff in *; done. }
  destruct Hip as [Hne Hdig].
  assert (Hbody : exists y, body = ip +:+ y).
  { destruct r as [fp|].
    - apply take_until_Some_inv in T as [-> _]. eauto.
    - apply take_until_None_inv in T as [-> _]. exists EmptyString.
      by rewrite string_app_nil_r. }
  destruct Hbody as [y Hy].
  destruct ip as [|c ip']; [done|]. simpl in Hdig.
  apply andb_prop in Hdig as [Hc _].
  destruct b as [|a b'].
  - simpl in body. subst body. done.
  - simpl in body. destruct (Ascii.eqb a "-") eqn:E.
    + apply Ascii.eqb_eq in E as ->. done.
    + subst body. rewrite string_app_cons in Hy. injection Hy as -> _.
      rewrite string_app_cons. simpl. by rewrite (digit_not_space _ Hc).
Qed.

(** On a decimal followed by the end of its field the scanner takes exactly
    the decimal and converts its value. *)
Lemma scan_float_decimal b s :
  is_decimal b = true -> field_end s ->
  scan_float (b +:+ s) = converted (decimal_of b) s.
Proof.
  intros Hb Hs. unfold is_decimal in Hb. unfold decimal_of.
  set (neg := match b with String c _ => Ascii.eqb c "-" | EmptyString => false end).
  set (body := match b with
               | String c s' => if Ascii.eqb c "-" then s' else b
               | EmptyString => b
               end) in *.
  destruct (take_until "." body) as [ip r] eqn:T.
  assert (Hip : is_empty ip = false /\ all_digits ip = true).
  { destruct r; repeat (apply andb_prop in Hb as [Hb ?]);
      rewrite ?negb_true_iff in *; done. }
  destruct Hip as [Hne Hdig].
  assert (Hfirst : exists c ip', ip = String c ip' /\ isdigit c = true).
  { destruct ip as [|c ip']; simpl in *; [done|].
    apply andb_prop in Hdig as [? _]. eauto. }
  assert (Hbody : exists y, body = ip +:+ y).
  { destruct r as [fp|].
    - apply take_until_Some_inv in T as [-> _]. eauto.
    - apply take_until_None_inv in T as [-> _]. exists EmptyString.
      by rewrite string_app_nil_r. }
  assert (Hsign : take_sign (b +:+ s) = (neg, body +:+ s)).
  { destruct Hfirst as (c & ip' & -> & Hc). destruct Hbody as [y Hy].
    destruct b as [|a b']; [done|]. subst neg body. cbn beta iota in *.
    rewrite string_app_cons. unfold take_sign.
    destruct (Ascii.eqb a "-") eqn:E; [done|].
    rewrite string_app_cons in Hy. injection Hy as -> _.
    by destruct (digit_not_sign _ Hc) as [_ ->]. }
  unfold scan_float, take_mantissa. rewrite Hsign.
  destruct r as [fp|].
  - apply take_until_Some_inv in T as [Hbd _]. rewrite Hbd, string_app_assoc.
    repeat (apply andb_prop in Hb as [Hb ?]).
    rewrite take_digits_app; [|done|done].
    rewrite string_app_cons.
    change (Ascii.eqb "." ".") with true. cbv iota.
    rewrite take_digits_app; [|done|by apply field_end_stops_digits].
    rewrite Hne. cbn [andb].
    unfold mantissa_value.
    destruct s as [|c0 s]; [done|]. simpl in Hs. subst c0. done.
  - apply take_until_None_inv in T as [Hbd _]. rewrite Hbd.
    rewrite take_digits_app; [|done|by apply field_end_stops_digits].
    assert (Hpt : match s with
                  | String c s' =>
                      if Ascii.eqb c "." then take_digits s' else (EmptyString, s)
                  | EmptyString => (EmptyString, s)
                  end = (EmptyString, s)).
    { destruct s as [|c0 s]; [done|]. simpl in Hs. by subst c0. }
    rewrite Hpt, Hne. cbn [andb]. unfold mantissa_value.
    rewrite string_app_nil_r. cbn [String.length Z.of_nat].
    destruct s as [|c0 s]; [done|]. simpl in Hs. subst c0. done.
Qed.

(** ** Rows *)

(** After a field that ends at its delimiter the stream is good: the
    [&&] chain goes on to the next extraction. *)
Ltac next_field H :=
  rewrite (getline_found _ _ _ H);
  change (ok (open_on _)) with true; cbv iota.

Lemma split_fields_take_until s :
  split_fields s =
  let '(w, r) := take_until comma s in
  w :: match r with Some rest => split_fields rest | None => [] end.
Proof.
  induction s as [|a s IH]; [done|]. simpl.
  destruct (Ascii.eqb a comma); [done|].
  rewrite IH. by destruct (take_until comma s) as [w r].
Qed.

(** A first field followed by others ends at a comma. *)
Lemma split_fields_cons_inv s f g fs :
  split_fields s = f :: g :: fs ->
  exists rest, s = f +:+ String comma rest /\ no_char comma f = true
               /\ split_fields rest = g :: fs.
Proof.
  rewrite split_fields_take_until.
  destruct (take_until comma s) as [w [rest|]] eqn:T; intros H; [|done].
  injection H as -> H. apply take_until_Some_inv in T as [-> Hn]. eauto.
Qed.


Lemma getline_not_good st d : good st = false -> ok (fst (getline st d)) = false.
Proof. intros H. unfold getline. by rewrite H. Qed.

Lemma extract_double_not_good st : good st = false -> ok (fst (extract_double st)) = false.
Proof. intros H. unfold extract_double. by rewrite H. Qed.

Lemma extract_double_decimal b s :
  is_decimal b = true -> field_end s ->
  extract_double (open_on (b +:+ s)) =
  match to_binary64 (decimal_of b) with
  | Some v => ({| buf := s; eofbit := is_empty s; failbit := false |}, v)
  | None => ({| buf := b +:+ s; eofbit := false; failbit := true |}, 0%Q)
  end.
Proof.
  intros Hb Hs. destruct (decimal_starts b s Hb) as [Hws Hne].
  unfold extract_double. cbn [good open_on buf eofbit failbit negb andb].
  rewrite Hws. destruct (b +:+ s) as [|c t] eqn:E; [done|].
  rewrite <- E, (scan_float_decimal b s Hb Hs). unfold converted.
  by destruct (to_binary64 (decimal_of b)).
Qed.

(** What the loop reads from a well-formed row: the first three columns,
    the balance rounded to the nearest binary64, and an empty [type],
    because the comma that ends the balance is still unread when the last
    [getline] runs.  A balance above the range of [double] makes the
    extraction fail, and the row is skipped. *)
Lemma parse_row_well_formed line :
  well_formed_row line = true ->
  parse_row line =
  match to_binary64 (decimal_of (row_balance line)) with
  | Some v => Some (row_plate line, row_rfid line, v, EmptyString)
  | None => None
  end.
Proof.
  unfold well_formed_row, row_rfid, row_plate, row_balance.
  destruct (split_fields line) as [|p [|r [|b [|t [|]]]]] eqn:E; try done.
  intros Hb. cbn [nth].
  apply split_fields_cons_inv in E as (s1 & -> & Hp & E).
  apply split_fields_cons_inv in E as (s2 & -> & Hr & E).
  apply split_fields_cons_inv in E as (s3 & -> & _ & _).
  pose proof (extract_double_decimal b (String comma s3) Hb eq_refl) as Hv.
  unfold parse_row.
  next_field Hp.
  next_field Hr.
  rewrite Hv. destruct (to_binary64 (decimal_of b)) as [v|]; [|done].
  cbn [ok failbit negb is_empty].
  change {| buf := String comma s3; eofbit := false; failbit := false |}
    with (open_on (EmptyString +:+ String comma s3)).
  rewrite (getline_found comma EmptyString s3 eq_refl). done.
Qed.










(** ** The registry as a map *)


Lemma load_rows_accepted lines m :
  load_rows lines m = fold_left insert_vehicle (accepted_rows lines) m.
Proof.
  revert m. induction lines as [|l ls IH]; intros m; [done|].
  unfold load_rows, accepted_rows in *. simpl. rewrite IH. unfold load_row.
  destruct (parse_row l) as [[[[p r] b] t]|]; done.
Qed.

Lemma insert_all_lookup vs (m : gmap string Vehicle) id :
  fold_left insert_vehicle vs m !! id =
  match last_with_rfid id vs with Some v => Some v | None => m !! id end.
Proof.
  revert m. induction vs as [|v vs IH]; intros m; [done|].
  simpl. rewrite IH. unfold last_with_rfid, insert_vehicle.
  destruct (decide (rfidTag v = id)) as [Heq|Hne].
  - rewrite filter_cons_True by done. rewrite last_cons.
    destruct (last (filter _ vs)); [done|]. by rewrite Heq, lookup_insert_eq.
  - rewrite filter_cons_False by done.
    destruct (last (filter _ vs)); [done|]. by rewrite lookup_insert_ne.
Qed.









Lemma loadRegisteredVehicles_data now text sys :
  registeredVehicles (loadRegisteredVehicles now (Some text) sys) =
  load_rows (data_lines text) (registeredVehicles sys).
Proof.
  unfold loadRegisteredVehicles, data_lines.
  by destruct (getline (open_on text) nl).
Qed.

(** ** Registry load *)

(** C3 (defect of the code).  On the registry of the README the row
    [ABC123,RF1234567,100.0,car] is read with the right plate, rfid and
    balance but with an empty [type]: the comma after the balance is still
    unread when the type is extracted, so the vehicle is stored with the
    unknown class although [car] is one of the three known types. *)
Theorem type_column_read_as_empty :
  parse_row "ABC123,RF1234567,100.0,car"
    = Some ("ABC123", "RF1234567", 100%Q, EmptyString)
  /\ registeredVehicles (loadRegisteredVehicles sample_time (Some readme_registry) new_system)
       !! "RF1234567"
     = Some {| plate := "ABC123"; rfidTag := "RF1234567";
               vehicleClass := unknown; balance := 100%Q |}
  /\ class_of_type "car" = car.
Proof. vm_compute. done. Qed.




(** C9.  The first line of a registry source never yields a vehicle: the
    registry after the load is what the lines after the first one give,
    whatever the first line is, and a source that consists of one line
    only, be it a well-formed vehicle row, leaves the registry as it was. *)
Theorem first_line_never_loaded (now : tm) (first rest : string) (sys : TollSystem) :
  no_char nl first = true ->
  registeredVehicles (loadRegisteredVehicles now (Some (first +:+ String nl rest)) sys)
    = load_rows (file_lines rest) (registeredVehicles sys)
  /\ registeredVehicles (loadRegisteredVehicles now (Some first) sys)
    = registeredVehicles sys.
Proof.
  intros H. rewrite !loadRegisteredVehicles_data.
  by rewrite (data_lines_cons _ _ H), (data_lines_single _ H).
Qed.

Lemma first_line_never_loaded_witness :
  no_char nl "ABC123,RF1234567,100.0,car" = true
  /\ well_formed_row "ABC123,RF1234567,100.0,car" = true
  /\ registeredVehicles
       (loadRegisteredVehicles sample_time (Some "ABC123,RF1234567,100.0,car") new_system)
     = registeredVehicles new_system.
Proof.
  assert (H : no_char nl "ABC123,RF1234567,100.0,car" = true) by reflexivity.
  split; [exact H|]. split; [reflexivity|].
  exact (proj2 (first_line_never_loaded sample_time "ABC123,RF1234567,100.0,car"
                  EmptyString new_system H)).
Defined.




(** ** Configuration load *)

Lemma config_ext (c c' : SystemConfig) :
  tollRates c = tollRates c' ->
  cameraResolutionWidth c = cameraResolutionWidth c' ->
  cameraResolutionHeight c = cameraResolutionHeight c' ->
  cameraFPS c = cameraFPS c' ->
  c = c'.
Proof. destruct c, c'; simpl; intros; by subst. Qed.

Section ConfigProofs.

Variable stod : string -> exn + double.
Variable stoi : string -> exn + Z.

Lemma assign_action key value config :
  assign stod stoi key value config =
  match key_action stod stoi key value with
  | Skip => inr config
  | Raise e => inl e
  | Assign u => inr (apply_setter config u)
  end.
Proof.
  unfold assign, key_action, convert.
  repeat match goal with
         | |- context [String.eqb key ?k] =>
             destruct (String.eqb key k);
             [first [by destruct (stod value) | by destruct (stoi value)]|]
         end.
  done.
Qed.

Lemma config_line_action line config :
  config_line stod stoi line config =
  match line_action stod stoi line with
  | Skip => inr config
  | Raise e => inl e
  | Assign u => inr (apply_setter config u)
  end.
Proof.
  unfold config_line, line_action.
  destruct (is_empty line || is_comment line); [done|].
  destruct (getline (open_on line) equals_sign) as [iss1 key].
  destruct (ok iss1); [|done].
  destruct (getline iss1 nl) as [iss2 value].
  destruct (ok iss2); [|done].
  apply assign_action.
Qed.

Lemma config_lines_actions lines config :
  config_lines stod stoi lines config =
  (snd (run_actions stod stoi lines),
   fold_left apply_setter (fst (run_actions stod stoi lines)) config).
Proof.
  revert config. induction lines as [|l ls IH]; intros config; [done|].
  simpl. rewrite config_line_action.
  destruct (line_action stod stoi l) as [|e|u]; [apply IH|done|].
  rewrite IH. by destruct (run_actions stod stoi ls).
Qed.

End ConfigProofs.

Lemma apply_all_rate us config class :
  tollRates (fold_left apply_setter us config) !! class =
  match last_rate class us with Some v => Some v | None => tollRates config !! class end.
Proof.
  revert config. induction us as [|u us IH]; intros config; [done|].
  simpl. rewrite IH. destruct (last_rate class us); [done|].
  destruct u as [k v| | |]; simpl; try done.
  destruct (String.eqb k class) eqn:E.
  - apply String.eqb_eq in E as ->. by rewrite lookup_insert_eq.
  - apply String.eqb_neq in E. by rewrite lookup_insert_ne.
Qed.

Lemma apply_all_width us config :
  cameraResolutionWidth (fold_left apply_setter us config) =
  default (cameraResolutionWidth config) (last_width us).
Proof.
  revert config. induction us as [|u us IH]; intros config; [done|].
  simpl. rewrite IH. destruct (last_width us); [done|]. by destruct u.
Qed.

Lemma apply_all_height us config :
  cameraResolutionHeight (fold_left apply_setter us config) =
  default (cameraResolutionHeight config) (last_height us).
Proof.
  revert config. induction us as [|u us IH]; intros config; [done|].
  simpl. rewrite IH. destruct (last_height us); [done|]. by destruct u.
Qed.

Lemma apply_all_fps us config :
  cameraFPS (fold_left apply_setter us config) = default (cameraFPS config) (last_fps us).
Proof.
  revert config. induction us as [|u us IH]; intros config; [done|].
  simpl. rewrite IH. destruct (last_fps us); [done|]. by destruct u.
Qed.


(** Assignments that set the three [int] members erase their old values. *)
Lemma apply_all_fresh us w h f w' h' f' :
  is_some (last_width us) && is_some (last_height us) && is_some (last_fps us) = true ->
  fold_left apply_setter us (fresh_config w h f) =
  fold_left apply_setter us (fresh_config w' h' f').
Proof.
  intros H. apply andb_prop in H as [H Hf]. apply andb_prop in H as [Hw Hh].
  apply config_ext.
  - apply map_eq. intros k. by rewrite !apply_all_rate.
  - rewrite !apply_all_width. by destruct (last_width us).
  - rewrite !apply_all_height. by destruct (last_height us).
  - rewrite !apply_all_fps. by destruct (last_fps us).
Qed.

Lemma loadConfig_actions stod stoi writable text config :
  loadConfig stod stoi writable (Some text) config =
  {| thrown := snd (run_actions stod stoi (file_lines text));
     config_after :=
       fold_left apply_setter (fst (run_actions stod stoi (file_lines text))) config;
     file_after := Some text |}.
Proof. unfold loadConfig. by rewrite config_lines_actions. Qed.

Lemma no_char_app c s t : no_char c (s +:+ t) = no_char c s && no_char c t.
Proof.
  induction s as [|a s IH]; [done|].
  rewrite string_app_cons. simpl. by rewrite IH, andb_assoc.
Qed.

Lemma config_lines_app stod stoi before after config config1 :
  config_lines stod stoi before config = (None, config1) ->
  config_lines stod stoi (before ++ after) config = config_lines stod stoi after config1.
Proof.
  revert config. induction before as [|l ls IH]; intros config; simpl.
  - by intros [= ->].
  - destruct (config_line stod stoi l config); [done|]. apply IH.
Qed.

Lemma rate_key_cases key :
  is_rate_key key = true ->
  key = "toll_rate_car" \/ key = "toll_rate_truck" \/ key = "toll_rate_bus".
Proof.
  unfold is_rate_key. intros H.
  repeat (apply orb_prop in H as [H|H]); apply String.eqb_eq in H; auto.
Qed.

Lemma camera_key_cases key :
  is_camera_key key = true ->
  key = "camera_resolution_width" \/ key = "camera_resolution_height" \/ key = "camera_fps".
Proof.
  unfold is_camera_key. intros H.
  repeat (apply orb_prop in H as [H|H]); apply String.eqb_eq in H; auto.
Qed.

(** A recognised key with a value that is there: the line reaches the
    conversion. *)
Lemma config_line_key_value stod stoi key value config :
  is_rate_key key || is_camera_key key = true ->
  no_char nl value = true -> value <> EmptyString ->
  config_line stod stoi (key_value_line key value) config =
  assign stod stoi key value config.
Proof.
  intros Hk Hv Hne.
  assert (Hkey : no_char equals_sign key = true
                 /\ is_empty (key_value_line key value) = false
                 /\ is_comment (key_value_line key value) = false).
  { apply orb_prop in Hk as [Hk|Hk];
      [apply rate_key_cases in Hk|apply camera_key_cases in Hk];
      destruct Hk as [->|[->| ->]]; done. }
  destruct Hkey as (Hk1 & Hk2 & Hk3).
  unfold config_line. rewrite Hk2, Hk3. cbn [orb].
  unfold key_value_line. rewrite (getline_found _ _ _ Hk1).
  change (ok (open_on value)) with true. cbv iota.
  rewrite (getline_end _ _ Hv). cbn [ok failbit].
  destruct value; [done|]. done.
Qed.

Lemma getline_open_snd d line :
  snd (getline (open_on line) d) = fst (take_until d line).
Proof.
  unfold getline. cbn [good open_on buf eofbit failbit negb andb].
  by destruct (take_until d line) as [w [rest|]].
Qed.

Lemma config_line_unrecognised stod stoi line config :
  is_rate_key (line_key line) = false -> is_camera_key (line_key line) = false ->
  config_line stod stoi line config = inr config.
Proof.
  unfold is_rate_key, is_camera_key, line_key. intros Hr Hc.
  apply orb_false_elim in Hr as [Hr Hr3]. apply orb_false_elim in Hr as [Hr1 Hr2].
  apply orb_false_elim in Hc as [Hc Hc3]. apply orb_false_elim in Hc as [Hc1 Hc2].
  unfold config_line. destruct (is_empty line || is_comment line); [done|].
  pose proof (getline_open_snd equals_sign line) as Hkey.
  destruct (getline (open_on line) equals_sign) as [iss1 key]. simpl in Hkey. subst key.
  destruct (ok iss1); [|done].
  destruct (getline iss1 nl) as [iss2 value]. destruct (ok iss2); [|done].
  unfold assign. by rewrite Hr1, Hr2, Hr3, Hc1, Hc2, Hc3.
Qed.

(** C2, as stated, fails: in a source whose first line gives the toll rate
    of cars as [abc], the load does not skip that assignment and go on; it
    leaves with [std::invalid_argument], and the valid line that follows,
    which alone would set the rate of trucks to 100, is never applied. *)
Lemma malformed_rate_aborts_load :
  let r := loadConfig std_stod std_stoi true (Some bad_rate_config) (fresh_config 0 0 0) in
  thrown r = Some invalid_argument
  /\ tollRates (config_after r) !! "truck" = None
  /\ tollRates (config_after
        (loadConfig std_stod std_stoi true (Some (join_lines ["toll_rate_truck=100.0"]))
           (fresh_config 0 0 0))) !! "truck" = Some 100%Q.
Proof. vm_compute. done. Qed.

(** C2 (amended).  Config load handles the lines in order.  A line whose
    key is not one of the six recognised keys changes nothing and the load
    goes on.  A line [key=value] with a recognised key and a non-empty value
    that the conversion ([std::stod] for a rate, [std::stoi] for a camera
    setting) rejects makes the load leave with the exception of the
    conversion: the assignments of the lines before it stay in place, and
    neither this assignment nor any later line is applied. *)
Theorem malformed_value_raises
    (stod : string -> exn + double) (stoi : string -> exn + Z) (writable : bool)
    (before after : list string) (key value : string)
    (config config1 : SystemConfig) (e : exn) :
  Forall (fun l => no_char nl l = true) before ->
  Forall (fun l => no_char nl l = true) after ->
  no_char nl value = true -> value <> EmptyString ->
  config_lines stod stoi before config = (None, config1) ->
  (is_rate_key key = true /\ stod value = inl e)
  \/ (is_camera_key key = true /\ stoi value = inl e) ->
  let text := join_lines (before ++ key_value_line key value :: after) in
  loadConfig stod stoi writable (Some text) config
    = {| thrown := Some e; config_after := config1; file_after := Some text |}
  /\ (forall line c,
        is_rate_key (line_key line) = false -> is_camera_key (line_key line) = false ->
        config_line stod stoi line c = inr c).
Proof.
  intros Hb Ha Hv Hne Hbefore Hbad text. split; [|intros; by apply config_line_unrecognised].
  assert (Hk : is_rate_key key || is_camera_key key = true).
  { destruct Hbad as [[-> _]|[-> _]]; [done|by rewrite orb_true_r]. }
  assert (Hnl : no_char nl (key_value_line key value) = true).
  { assert (no_char nl key = true).
    { apply orb_prop in Hk as [Hk|Hk];
        [apply rate_key_cases in Hk|apply camera_key_cases in Hk];
        destruct Hk as [->|[->| ->]]; done. }
    unfold key_value_line. rewrite no_char_app, H. simpl. exact Hv. }
  assert (Hline : config_line stod stoi (key_value_line key value) config1 = inl e).
  { rewrite (config_line_key_value _ _ _ _ _ Hk Hv Hne). unfold assign.
    destruct Hbad as [[Hkey He]|[Hkey He]].
    - apply rate_key_cases in Hkey as [->|[->| ->]]; simpl; by rewrite He.
    - apply camera_key_cases in Hkey as [->|[->| ->]]; simpl; by rewrite He. }
  unfold loadConfig. subst text. rewrite file_lines_join.
  2:{ apply Forall_app. split; [done|]. by constructor. }
  rewrite (config_lines_app _ _ _ _ _ _ Hbefore). simpl. by rewrite Hline.
Qed.

Lemma malformed_value_raises_witness :
  (is_rate_key "toll_rate_truck" = true /\ std_stod "abc" = inl invalid_argument)
  /\ config_lines std_stod std_stoi ["toll_rate_car=50.0"] (fresh_config 0 0 0)
     = (None, set_tollRate "car" 50%Q (fresh_config 0 0 0))
  /\ loadConfig std_stod std_stoi true
       (Some (join_lines ["toll_rate_car=50.0"; "toll_rate_truck=abc"; "toll_rate_bus=75.0"]))
       (fresh_config 0 0 0)
     = {| thrown := Some invalid_argument;
          config_after := set_tollRate "car" 50%Q (fresh_config 0 0 0);
          file_after :=
            Some (join_lines ["toll_rate_car=50.0"; "toll_rate_truck=abc";
                              "toll_rate_bus=75.0"]) |}.
Proof.
  assert (H1 : Forall (fun l => no_char nl l = true) ["toll_rate_car=50.0"])
    by (repeat constructor).
  assert (H2 : Forall (fun l => no_char nl l = true) ["toll_rate_bus=75.0"])
    by (repeat constructor).
  assert (H3 : no_char nl "abc" = true) by reflexivity.
  assert (H4 : "abc" <> EmptyString) by discriminate.
  assert (H5 : config_lines std_stod std_stoi ["toll_rate_car=50.0"] (fresh_config 0 0 0)
               = (None, set_tollRate "car" 50%Q (fresh_config 0 0 0)))
    by (vm_compute; reflexivity).
  assert (H6 : is_rate_key "toll_rate_truck" = true /\ std_stod "abc" = inl invalid_argument)
    by (split; reflexivity).
  split; [exact H6|]. split; [exact H5|].
  exact (proj1 (malformed_value_raises std_stod std_stoi true
                  ["toll_rate_car=50.0"] ["toll_rate_bus=75.0"] "toll_rate_truck" "abc"
                  (fresh_config 0 0 0) (set_tollRate "car" 50%Q (fresh_config 0 0 0))
                  invalid_argument H1 H2 H3 H4 H5 (or_introl H6))).
Defined.

(** C5, as stated, fails where it says that the defaults are persisted:
    when config.txt can be opened neither for reading nor for writing, the
    load returns the default configuration and nothing has been written. *)
Lemma unwritable_config_not_persisted :
  let r := loadConfig std_stod std_stoi false None (fresh_config 0 0 0) in
  thrown r = None
  /\ config_after r = default_config
  /\ file_after r = None.
Proof. vm_compute. done. Qed.

(** C5 (amended).  When config.txt cannot be opened for reading, the load
    returns without an exception, whatever the conversions are: the rates of
    car, truck and bus are 50, 100 and 75 and the camera settings are 1920 by
    1080 at 30 frames per second.  The default text has been written to the
    file exactly when the file can be opened for writing; the stream is not
    tested, and nothing tells the caller which of the two happened.  A new
    [ConfigManager] then holds exactly the default configuration, and the
    default text reads back as that same configuration. *)
Theorem missing_config_gives_defaults
    (stod : string -> exn + double) (stoi : string -> exn + Z) (writable : bool)
    (config : SystemConfig) :
  let r := loadConfig stod stoi writable None config in
  thrown r = None
  /\ tollRates (config_after r) !! "car" = Some 50%Q
  /\ tollRates (config_after r) !! "truck" = Some 100%Q
  /\ tollRates (config_after r) !! "bus" = Some 75%Q
  /\ cameraResolutionWidth (config_after r) = 1920%Z
  /\ cameraResolutionHeight (config_after r) = 1080%Z
  /\ cameraFPS (config_after r) = 30%Z
  /\ file_after r = (if writable then Some default_config_text else None)
  /\ config_after r = config_after (loadConfig stod stoi (negb writable) None config)
  /\ (forall w h f,
        config_after (loadConfig stod stoi writable None (fresh_config w h f)) = default_config)
  /\ (forall w h f,
        loadConfig std_stod std_stoi true (Some default_config_text) (fresh_config w h f)
        = {| thrown := None; config_after := default_config;
             file_after := Some default_config_text |}).
Proof.
  intros r. subst r. cbn [loadConfig createDefaultConfig thrown config_after file_after].
  split; [done|].
  split; [cbn; rewrite lookup_insert_ne, lookup_insert_ne by done; apply lookup_insert_eq|].
  split; [cbn; rewrite lookup_insert_ne by done; apply lookup_insert_eq|].
  split; [cbn; apply lookup_insert_eq|].
  do 5 (split; [done|]).
  split; [done|].
  intros w h f. vm_compute. reflexivity.
Qed.

(** ** Loading the same source again *)


(** For a configuration source that assigns the three camera settings, the
    state after the load into a new [ConfigManager] does not depend on what
    its uninitialised members held. *)
Lemma load_erases_uninitialised_members stod stoi writable config_text w h f w' h' f' :
  sets_camera_values stod stoi config_text = true ->
  loadConfig stod stoi writable (Some config_text) (fresh_config w h f)
  = loadConfig stod stoi writable (Some config_text) (fresh_config w' h' f').
Proof.
  intros Hcam. rewrite !loadConfig_actions. f_equal. by apply apply_all_fresh.
Qed.


(** ** Logger *)

(** A record goes to the end of the transaction log: what was there stays
    as it was, and the error log is not touched. *)
Lemma logTransaction_appends now vehicleId method amount remaining lg :
  exists record,
    transactionLog (logTransaction now vehicleId method amount remaining lg)
      = transactionLog lg +:+ record
    /\ errorLog (logTransaction now vehicleId method amount remaining lg) = errorLog lg.
Proof. eexists. split; reflexivity. Qed.

(** C4 (defect of the code).  Logging the charge of scenario A (vehicle RF1,
    method rfid, amount 50, balance 50) into a new log adds two lines after
    the header, not one row of five columns: the text of [std::ctime] ends
    with a newline, so the time stamp stands alone on the first line and the
    second line starts with the comma.  The same break is in every record:
    what is appended is the date text, a newline, and then the comma that
    should have followed the date on the same line. *)
Theorem transaction_row_split_in_two :
  file_lines (transactionLog
                (logTransaction sample_time "RF1" "rfid" 50%Q 50%Q
                   (Logger_new EmptyString EmptyString)))
  = ["timestamp,vehicle_id,payment_method,amount,balance_remaining";
     "Tue Nov  3 01:31:05 2026";
     ",RF1,rfid,50,50"]
  /\ forall now vehicleId method amount remaining lg,
       exists rest,
         transactionLog (logTransaction now vehicleId method amount remaining lg)
         = transactionLog lg +:+ asctime_text now +:+ String nl (String comma rest).
Proof.
  split; [vm_compute; reflexivity|].
  intros. eexists. unfold logTransaction, ctime. cbn [transactionLog].
  by rewrite string_app_assoc.
Qed.

(** ** Charging and processing *)

(** C1.  For a vehicle registered under [key] with balance B, charging R
    succeeds exactly when R <= B; it then stores B - R as the balance of that
    vehicle and changes nothing else; when B < R it returns the
    insufficient-funds failure and the registry is the one it was given. *)
Theorem charge_succeeds_iff_covered
    (vehicles : gmap string Vehicle) (key : string) (v : Vehicle) (amount : double) :
  vehicles !! key = Some v ->
  let r := charge vehicles key amount in
  ((amount <= balance v)%Q ->
     exists v',
       r.2 = Some (Charged (balance v')) /\ r.1 !! key = Some v'
       /\ (balance v' == balance v - amount)%Q
       /\ plate v' = plate v /\ rfidTag v' = rfidTag v
       /\ vehicleClass v' = vehicleClass v
       /\ forall k, k <> key -> r.1 !! k = vehicles !! k)
  /\ ((balance v < amount)%Q -> r.2 = Some InsufficientFunds /\ r.1 = vehicles)
  /\ ((exists b, r.2 = Some (Charged b)) <-> (amount <= balance v)%Q).
Proof.
  intros Hv r. subst r. unfold charge. rewrite Hv.
  destruct (Qle_bool amount (balance v)) eqn:E; cbn [fst snd].
  - apply Qle_bool_iff in E. split; [|split].
    + intros _.
      exists {| plate := plate v; rfidTag := rfidTag v; vehicleClass := vehicleClass v;
                balance := Qred (balance v - amount) |}.
      split; [reflexivity|].
      split; [apply lookup_insert_eq|]. cbn [balance plate rfidTag vehicleClass].
      split; [apply Qred_correct|]. do 3 (split; [done|]).
      intros k Hk. by apply lookup_insert_ne.
    + intros Hlt. by apply Qlt_not_le in Hlt.
    + split; [done|]. intros _. eauto.
  - assert (Hn : ~ (amount <= balance v)%Q).
    { intros H. apply Qle_bool_iff in H. congruence. }
    split; [done|]. split; [done|].
    split; [intros [b [=]]|done].
Qed.

Lemma charge_succeeds_iff_covered_witness :
  ({["RF1" := scenario_vehicle]} : gmap string Vehicle) !! "RF1" = Some scenario_vehicle
  /\ (charge {["RF1" := scenario_vehicle]} "RF1" 50%Q).2 = Some (Charged 50%Q)
  /\ (charge {["RF1" := scenario_vehicle]} "RF1" 150%Q)
     = ({["RF1" := scenario_vehicle]}, Some InsufficientFunds).
Proof.
  assert (H : ({["RF1" := scenario_vehicle]} : gmap string Vehicle) !! "RF1"
              = Some scenario_vehicle) by reflexivity.
  split; [exact H|].
  pose proof (charge_succeeds_iff_covered {["RF1" := scenario_vehicle]} "RF1"
                scenario_vehicle 50%Q H) as [Hok _].
  pose proof (charge_succeeds_iff_covered {["RF1" := scenario_vehicle]} "RF1"
                scenario_vehicle 150%Q H) as [_ [Hko _]].
  split.
  - destruct Hok as (v' & Hres & _); [vm_compute; discriminate|].
    pose proof Hres as Hb. vm_compute in Hb. injection Hb as Hb.
    rewrite Hres. do 2 f_equal. symmetry. exact Hb.
  - destruct Hko as [Hres Hreg]; [reflexivity|].
    by rewrite (surjective_pairing (charge _ _ _)), Hres, Hreg.
Defined.

(** C6.  For an identifier that resolves to no registry entry, one attempt
    leaves the registry (every balance) and the rate table as they were,
    writes no transaction record, adds exactly one error record, which names
    the reason "unregistered vehicle", returns the unregistered rejection,
    and passes from the lookup straight to [Logged (Failure "unregistered
    vehicle")] without ever attempting a charge. *)
Theorem unregistered_identifier_rejected
    (fallback_rate : double) (now : tm) (method : PaymentMethod)
    (identifier : string) (p : Processor) :
  lookup (registry p) identifier = None ->
  let r := process fallback_rate now method identifier p in
  registry r.1.1 = registry p
  /\ rateTable r.1.1 = rateTable p
  /\ ledger r.1.1 = ledger p
  /\ errors r.1.1 = errors p ++
       [{| error_timestamp := now; message := "unregistered vehicle: " +:+ identifier |}]
  /\ r.1.2 = rejected_unregistered
  /\ r.2 = [Start; IdentityResolved; VehicleLookup;
            Logged (Failure "unregistered vehicle"); Done]
  /\ ChargeAttempted ∉ r.2.
Proof.
  intros H r. subst r. unfold process. rewrite H. cbn [fst snd registry rateTable ledger errors].
  repeat (split; [done|]).
  intros Hin. repeat (apply elem_of_cons in Hin as [Hin|Hin]; [done|]).
  by apply elem_of_nil in Hin.
Qed.

Lemma unregistered_identifier_rejected_witness :
  lookup (registry scenario_processor) "UNKNOWN123" = None
  /\ registry (process 0%Q sample_time pay_rfid "UNKNOWN123" scenario_processor).1.1
     = registry scenario_processor
  /\ ledger (process 0%Q sample_time pay_rfid "UNKNOWN123" scenario_processor).1.1 = [].
Proof.
  assert (H : lookup (registry scenario_processor) "UNKNOWN123" = None)
    by (vm_compute; reflexivity).
  split; [exact H|].
  pose proof (unregistered_identifier_rejected 0%Q sample_time pay_rfid "UNKNOWN123"
                scenario_processor H) as (H1 & _ & H3 & _).
  split; [exact H1|exact H3].
Defined.

(** ** The scenarios of the specification, run on the model *)

(** Scenarios A, B and C: three charges of RF1 at the rate of 50. *)
Example scenario_A_B_C :
  let '(p1, r1, _) := process 0%Q sample_time pay_rfid "RF1" scenario_processor in
  let '(p2, r2, _) := process 0%Q sample_time pay_rfid "RF1" p1 in
  let '(p3, r3, _) := process 0%Q sample_time pay_rfid "RF1" p2 in
  r1 = accepted 50%Q /\ r2 = accepted 0%Q /\ r3 = rejected_insufficient_funds
  /\ balance <$> registry p3 !! "RF1" = Some 0%Q
  /\ length (ledger p3) = 2 /\ length (errors p3) = 1.
Proof. vm_compute. done. Qed.

(** Scenario D: an identifier that is not in the registry. *)
Example scenario_D :
  (process 0%Q sample_time pay_rfid "UNKNOWN123" scenario_processor).1.2
  = rejected_unregistered.
Proof. vm_compute. reflexivity. Qed.

(** The plate is the second key of [lookup]. *)
Example lookup_by_plate :
  lookup (registry scenario_processor) "ABC123" = Some ("RF1", scenario_vehicle).
Proof. vm_compute. reflexivity. Qed.

(** With two rows for RF1 the second one is the one that stays. *)
Example duplicate_rfid_keeps_last :
  plate <$> registeredVehicles
              (loadRegisteredVehicles sample_time (Some duplicate_rfid_registry) new_system)
            !! "RF1"
  = Some "XYZ789".
Proof. vm_compute. reflexivity. Qed.

(** Rows the loop accepts although a column is off: a balance followed by
    text, and a row that ends with the comma of its balance. *)
Example accepted_odd_rows :
  parse_row "A,R, 12abc,de" = Some ("A", "R", 12%Q, "abc")
  /\ parse_row "A,R1,1.0," = Some ("A", "R1", 1%Q, EmptyString)
  /\ parse_row "A,R1,1.0" = None.
Proof. vm_compute. done. Qed.

(** [operator<<] on some amounts. *)
Example put_double_samples :
  map put_double [50%Q; (1 # 2)%Q; (25 # 2)%Q; 1000000%Q; (1 # 100000)%Q; (- (3 # 4))%Q]
  = ["50"; "0.5"; "12.5"; "1e+06"; "1e-05"; "-0.75"].
Proof. vm_compute. reflexivity. Qed.

(** * Further properties of the code *)

(** ** FileManager *)

Lemma string_app_inv_head s t u : s +:+ t = s +:+ u -> t = u.
Proof.
  induction s as [|a s IH]; [done|].
  rewrite !string_app_cons. intros [= H]. auto.
Qed.

(** X1.  For a file name proper (not empty, without a separator, neither
    [.] nor [..]) every path that [getConfigPath] and [getLogPath] build, and
    every path that [getOutputPath] builds for one of the three output
    sub-directories, names a file that lies directly in one of the
    directories [createDirectoryStructure] creates.  The functions do not
    look at the name: for [../x] the configuration path is
    [<base>/config/../x], which lies outside the configuration directory. *)
Theorem paths_lie_in_created_directories (fm : FileManager) (filename : string) :
  plain_name filename = true ->
  (exists d, d ∈ createDirectoryStructure fm /\ file_in d (getConfigPath fm filename))
  /\ (exists d, d ∈ createDirectoryStructure fm /\ file_in d (getLogPath fm filename))
  /\ (forall subdir,
        subdir ∈ ["captured_plates"; "processed_images"; "daily_summaries"] ->
        exists d, d ∈ createDirectoryStructure fm
                  /\ file_in d (getOutputPath fm subdir filename))
  /\ getConfigPath fm "../x" = baseDir fm +:+ "/config/../x".
Proof.
  intros Hplain.
  unfold createDirectoryStructure, dirs, file_in, getConfigPath, getLogPath, getOutputPath.
  split; [|split; [|split]].
  - exists ((baseDir fm +:+ "/") +:+ "config"). split.
    + rewrite list_elem_of_In. apply in_map. simpl. auto.
    + exists filename. split; [done|]. by rewrite !string_app_assoc.
  - exists ((baseDir fm +:+ "/") +:+ "logs"). split.
    + rewrite list_elem_of_In. apply in_map. simpl. auto 10.
    + exists filename. split; [done|]. by rewrite !string_app_assoc.
  - intros subdir Hs.
    exists ((baseDir fm +:+ "/") +:+ "output/" +:+ subdir). split.
    + rewrite list_elem_of_In. apply in_map.
      rewrite list_elem_of_In in Hs. simpl in Hs.
      destruct Hs as [<-|[<-|[<-|[]]]]; simpl; auto 10.
    + exists filename. split; [done|]. by rewrite !string_app_assoc.
  - by rewrite string_app_assoc.
Qed.

Lemma paths_lie_in_created_directories_witness :
  plain_name "config.txt" = true
  /\ exists d, d ∈ createDirectoryStructure FileManager_default
               /\ file_in d (getConfigPath FileManager_default "config.txt").
Proof.
  assert (H : plain_name "config.txt" = true) by reflexivity.
  split; [exact H|].
  exact (proj1 (paths_lie_in_created_directories FileManager_default "config.txt" H)).
Defined.

(** X2.  The paths of different kinds never coincide, whatever the base
    directory and the file names are: a configuration path is never a log
    path, and neither is ever an output path; within one kind, different
    file names give different paths.  So the four files the system opens
    (config.txt, registered_vehicles.csv, transaction_log.csv and
    error_log.txt) are pairwise distinct and no image overwrites them. *)
Theorem paths_do_not_collide (fm : FileManager) (f g subdir : string) :
  getConfigPath fm f <> getLogPath fm g
  /\ getConfigPath fm f <> getOutputPath fm subdir g
  /\ getLogPath fm f <> getOutputPath fm subdir g
  /\ (getConfigPath fm f = getConfigPath fm g -> f = g)
  /\ (getLogPath fm f = getLogPath fm g -> f = g)
  /\ (getOutputPath fm subdir f = getOutputPath fm subdir g -> f = g).
Proof.
  unfold getConfigPath, getLogPath, getOutputPath.
  rewrite !string_app_assoc.
  repeat split; intros H; apply string_app_inv_head in H; try done.
  - by apply (string_app_inv_head "/config/") in H.
  - by apply (string_app_inv_head "/logs/") in H.
  - apply (string_app_inv_head "/output/") in H.
    apply string_app_inv_head in H. by apply (string_app_inv_head "/") in H.
Qed.

(** ** The characters of a record *)


Lemma chars_in_no_char P c s : P c = false -> chars_in P s = true -> no_char c s = true.
Proof.
  intros Hc. induction s as [|a s IH]; [done|]. simpl.
  intros [Ha Hs]%andb_prop. rewrite (IH Hs), andb_true_r.
  destruct (Ascii.eqb a c) eqn:E; [|done].
  apply Ascii.eqb_eq in E. congruence.
Qed.


Lemma string_of_uint_digits d : chars_in isdigit (NilEmpty.string_of_uint d) = true.
Proof. induction d; simpl; done. Qed.


Lemma show_N_digits n : chars_in isdigit (show_N n) = true.
Proof. apply string_of_uint_digits. Qed.
















(** ** Logger *)


Lemma split_fields_cons f rest :
  no_char comma f = true -> split_fields (f +:+ String comma rest) = f :: split_fields rest.
Proof. intros H. by rewrite split_fields_take_until, (take_until_found _ _ _ H). Qed.








(** ** More on configuration load *)

Lemma getline_open d line :
  getline (open_on line) d =
  match take_until d line with
  | (w, Some rest) => (open_on rest, w)
  | (w, None) => ({| buf := EmptyString; eofbit := true; failbit := is_empty w |}, w)
  end.
Proof. done. Qed.

Lemma config_line_skipped stod stoi line config :
  skipped_line line = true -> config_line stod stoi line config = inr config.
Proof.
  unfold skipped_line, config_line. intros H.
  destruct (is_empty line || is_comment line); [done|]. cbn [orb] in H.
  rewrite getline_open.
  destruct (take_until equals_sign line) as [key [rest|]].
  - change (ok (open_on rest)) with true. cbv iota.
    destruct rest as [|a rest]; [done|]. cbn [is_empty orb] in H.
    apply negb_true_iff in H. apply orb_false_elim in H as [Hr Hc].
    unfold is_rate_key in Hr. unfold is_camera_key in Hc.
    apply orb_false_elim in Hr as [Hr Hr3]. apply orb_false_elim in Hr as [Hr1 Hr2].
    apply orb_false_elim in Hc as [Hc Hc3]. apply orb_false_elim in Hc as [Hc1 Hc2].
    destruct (getline _ nl) as [iss2 value]. destruct (ok iss2); [|done].
    unfold assign. by rewrite Hr1, Hr2, Hr3, Hc1, Hc2, Hc3.
  - destruct (ok _); [|done].
    pose proof (getline_not_good {| buf := EmptyString; eofbit := true; failbit := is_empty key |}
                  nl eq_refl) as Hn.
    destruct (getline _ nl) as [iss2 value]. simpl in Hn. by rewrite Hn.
Qed.

Lemma config_lines_app_general stod stoi a b config :
  config_lines stod stoi (a ++ b) config =
  match config_lines stod stoi a config with
  | (None, config1) => config_lines stod stoi b config1
  | (Some e, config1) => (Some e, config1)
  end.
Proof.
  revert config. induction a as [|l a IH]; intros config; simpl.
  - done.
  - destruct (config_line stod stoi l config); [done|]. apply IH.
Qed.

Lemma config_lines_drop_skipped stod stoi before after line config :
  skipped_line line = true ->
  config_lines stod stoi (before ++ line :: after) config =
  config_lines stod stoi (before ++ after) config.
Proof.
  intros H. rewrite !config_lines_app_general.
  destruct (config_lines stod stoi before config) as [[e|] c1]; [done|].
  simpl. by rewrite (config_line_skipped _ _ _ _ H).
Qed.

(** X5.  A line that [loadConfig] passes over can be taken out of the source
    without any effect on the load: with or without a blank line, a comment,
    a line with no equals sign, a key with nothing after its equals sign, or
    a line whose key is not one of the six, the load ends the same way and
    leaves the same configuration.  In particular a recognised key with an
    empty value is not an error. *)
Theorem skipped_lines_do_not_matter
    (stod : string -> exn + double) (stoi : string -> exn + Z) (writable : bool)
    (before after : list string) (line : string) (config : SystemConfig) :
  Forall (fun l => no_char nl l = true) (before ++ line :: after) ->
  skipped_line line = true ->
  let r := loadConfig stod stoi writable (Some (join_lines (before ++ line :: after))) config in
  let r' := loadConfig stod stoi writable (Some (join_lines (before ++ after))) config in
  thrown r = thrown r' /\ config_after r = config_after r'.
Proof.
  intros Hnl Hskip r r'. subst r r'. unfold loadConfig.
  rewrite (file_lines_join _ Hnl).
  rewrite file_lines_join.
  2:{ apply Forall_app in Hnl as [Hb Ha]. apply Forall_app. split; [done|].
      by apply Forall_cons_1 in Ha as [_ Ha]. }
  rewrite (config_lines_drop_skipped _ _ _ _ _ _ Hskip).
  by destruct (config_lines stod stoi (before ++ after) config).
Qed.

Lemma skipped_lines_do_not_matter_witness :
  Forall (fun l => no_char nl l = true)
    (["toll_rate_car=50.0"] ++ "toll_rate_truck=" :: ["camera_fps=30"])
  /\ skipped_line "toll_rate_truck=" = true
  /\ config_after
       (loadConfig std_stod std_stoi true
          (Some (join_lines (["toll_rate_car=50.0"] ++ "toll_rate_truck=" :: ["camera_fps=30"])))
          (fresh_config 0 0 0))
     = config_after
         (loadConfig std_stod std_stoi true
            (Some (join_lines (["toll_rate_car=50.0"] ++ ["camera_fps=30"])))
            (fresh_config 0 0 0)).
Proof.
  assert (H1 : Forall (fun l => no_char nl l = true)
                 (["toll_rate_car=50.0"] ++ "toll_rate_truck=" :: ["camera_fps=30"]))
    by (repeat constructor).
  assert (H2 : skipped_line "toll_rate_truck=" = true) by reflexivity.
  split; [exact H1|]. split; [exact H2|].
  exact (proj2 (skipped_lines_do_not_matter std_stod std_stoi true
                  ["toll_rate_car=50.0"] ["camera_fps=30"] "toll_rate_truck="
                  (fresh_config 0 0 0) H1 H2)).
Defined.

Lemma key_action_known_rate stod stoi key value u :
  key_action stod stoi key value = Assign u -> sets_known_rate u.
Proof.
  unfold key_action, convert, sets_known_rate, rate_classes.
  repeat match goal with
         | |- context [String.eqb key ?k] => destruct (String.eqb key k)
         end;
    repeat match goal with
           | |- context [match ?x with inl _ => _ | inr _ => _ end] => destruct x
           end;
    intros [= <-]; try done; set_solver.
Qed.

Lemma line_action_known_rate stod stoi line u :
  line_action stod stoi line = Assign u -> sets_known_rate u.
Proof.
  unfold line_action. destruct (is_empty line || is_comment line); [done|].
  destruct (getline (open_on line) equals_sign) as [iss1 key].
  destruct (ok iss1); [|done].
  destruct (getline iss1 nl) as [iss2 value].
  destruct (ok iss2); [|done]. apply key_action_known_rate.
Qed.

Lemma run_actions_known_rates stod stoi lines :
  Forall sets_known_rate (fst (run_actions stod stoi lines)).
Proof.
  induction lines as [|l ls IH]; simpl; [constructor|].
  destruct (line_action stod stoi l) as [|e|u] eqn:E; [done|constructor|].
  destruct (run_actions stod stoi ls) as [us e]. simpl in *.
  constructor; [|done]. by apply line_action_known_rate in E.
Qed.

Lemma last_rate_unknown class us :
  class ∉ rate_classes -> Forall sets_known_rate us -> last_rate class us = None.
Proof.
  intros Hc. induction 1 as [|u us Hu _ IH]; [done|].
  simpl. rewrite IH. destruct u as [k v| | |]; try done.
  destruct (String.eqb k class) eqn:E; [|done].
  apply String.eqb_eq in E as ->. done.
Qed.

(** X6.  Whatever the source and the conversions, and also when the load
    ends with an exception or writes the defaults, [loadConfig] touches no
    toll rate besides those of car, truck and bus, and it never removes a
    rate: every other entry of the map is as it was, and every class that had
    a rate still has one. *)
Theorem load_touches_three_rates_only
    (stod : string -> exn + double) (stoi : string -> exn + Z) (writable : bool)
    (file : option string) (config : SystemConfig) :
  let config' := config_after (loadConfig stod stoi writable file config) in
  (forall class, class ∉ rate_classes ->
     tollRates config' !! class = tollRates config !! class)
  /\ (forall class, is_Some (tollRates config !! class) ->
        is_Some (tollRates config' !! class)).
Proof.
  intros config'. subst config'. destruct file as [text|].
  - rewrite loadConfig_actions. cbn [config_after]. split.
    + intros class Hc. rewrite apply_all_rate.
      by rewrite (last_rate_unknown _ _ Hc (run_actions_known_rates stod stoi _)).
    + intros class Hs. rewrite apply_all_rate.
      by destruct (last_rate class _).
  - cbn [loadConfig createDefaultConfig config_after]. cbn. split.
    + intros class Hc. unfold rate_classes in Hc.
      rewrite !lookup_insert_ne; [done|set_solver..].
    + intros class Hs.
      destruct (decide ("bus" = class)) as [<-|]; [by rewrite lookup_insert_eq|].
      rewrite lookup_insert_ne by done.
      destruct (decide ("truck" = class)) as [<-|]; [by rewrite lookup_insert_eq|].
      rewrite lookup_insert_ne by done.
      destruct (decide ("car" = class)) as [<-|]; [by rewrite lookup_insert_eq|].
      by rewrite lookup_insert_ne by done.
Qed.

(** ** Sources put together *)

Lemma file_lines_join_app lines text :
  Forall (fun l => no_char nl l = true) lines ->
  file_lines (join_lines lines +:+ text) = lines ++ file_lines text.
Proof.
  induction 1 as [|l ls Hl _ IH]; [done|].
  cbn [join_lines]. rewrite string_app_assoc, string_app_cons.
  by rewrite (file_lines_cons _ _ Hl), IH.
Qed.

Lemma file_lines_single l :
  no_char nl l = true -> file_lines l = if is_empty l then [] else [l].
Proof.
  intros H. unfold file_lines, read_all_lines. rewrite read_lines_unfold, (getline_end _ _ H).
  cbn [ok failbit]. destruct (is_empty l); [done|]. cbn [negb].
  by rewrite read_lines_not_good.
Qed.

(** The rows of a registry source are its lines but the first. *)
Lemma data_lines_tail text : data_lines text = tail (file_lines text).
Proof.
  destruct (take_until nl text) as [w [rest|]] eqn:T.
  - apply take_until_Some_inv in T as [-> Hw].
    by rewrite (data_lines_cons _ _ Hw), (file_lines_cons _ _ Hw).
  - apply take_until_None_inv in T as [-> Hw].
    rewrite (data_lines_single _ Hw), (file_lines_single _ Hw).
    by destruct (is_empty w).
Qed.

(** X7.  Loading a configuration made of two parts, the first ending at a
    line end, is loading the first part and then the second on what the first
    left: when the first part loads without an exception, the whole source
    ends as the second part does on that configuration; when the first part
    raises, the whole source raises the same exception, leaves what the first
    part left and reads nothing of the second. *)
Theorem config_sources_compose
    (stod : string -> exn + double) (stoi : string -> exn + Z) (writable : bool)
    (lines : list string) (text : string) (config : SystemConfig) :
  Forall (fun l => no_char nl l = true) lines ->
  let r1 := loadConfig stod stoi writable (Some (join_lines lines)) config in
  let r2 := loadConfig stod stoi writable (Some text) (config_after r1) in
  let r := loadConfig stod stoi writable (Some (join_lines lines +:+ text)) config in
  match thrown r1 with
  | None => thrown r = thrown r2 /\ config_after r = config_after r2
  | Some e => thrown r = Some e /\ config_after r = config_after r1
  end.
Proof.
  intros Hnl r1 r2 r. subst r1 r2 r. unfold loadConfig.
  rewrite (file_lines_join _ Hnl), (file_lines_join_app _ _ Hnl).
  rewrite config_lines_app_general.
  destruct (config_lines stod stoi lines config) as [[e|] c1]; cbn [thrown config_after].
  - done.
  - by destruct (config_lines stod stoi (file_lines text) c1).
Qed.

Lemma config_sources_compose_witness :
  Forall (fun l => no_char nl l = true) ["toll_rate_car=50.0"; "camera_fps=30"]
  /\ tollRates (config_after
       (loadConfig std_stod std_stoi true
          (Some (join_lines ["toll_rate_car=50.0"; "camera_fps=30"] +:+ "toll_rate_car=60"))
          (fresh_config 0 0 0))) !! "car" = Some 60%Q.
Proof.
  assert (H : Forall (fun l => no_char nl l = true) ["toll_rate_car=50.0"; "camera_fps=30"])
    by (repeat constructor).
  split; [exact H|].
  pose proof (config_sources_compose std_stod std_stoi true
                ["toll_rate_car=50.0"; "camera_fps=30"] "toll_rate_car=60"
                (fresh_config 0 0 0) H) as Hc.
  cbv zeta in Hc.
  change (thrown (loadConfig std_stod std_stoi true
                    (Some (join_lines ["toll_rate_car=50.0"; "camera_fps=30"]))
                    (fresh_config 0 0 0)))
    with (@None exn) in Hc.
  destruct Hc as [_ Hc]. rewrite Hc. reflexivity.
Defined.

Lemma load_rows_app a b vehicles :
  load_rows (a ++ b) vehicles = load_rows b (load_rows a vehicles).
Proof. unfold load_rows. apply fold_left_app. Qed.

(** X8.  The newline at the end of the last line is optional for both
    loaders: a source whose last line stops at the end of the file is loaded
    as the same source with that line ended by a newline. *)
Theorem final_newline_is_optional
    (stod : string -> exn + double) (stoi : string -> exn + Z) (writable : bool) (now : tm)
    (lines : list string) (final : string) (config : SystemConfig) (sys : TollSystem) :
  Forall (fun l => no_char nl l = true) lines ->
  no_char nl final = true ->
  let open := join_lines lines +:+ final in
  let closed := join_lines (lines ++ [final]) in
  thrown (loadConfig stod stoi writable (Some open) config)
    = thrown (loadConfig stod stoi writable (Some closed) config)
  /\ config_after (loadConfig stod stoi writable (Some open) config)
     = config_after (loadConfig stod stoi writable (Some closed) config)
  /\ registeredVehicles (loadRegisteredVehicles now (Some open) sys)
     = registeredVehicles (loadRegisteredVehicles now (Some closed) sys).
Proof.
  intros Hnl Hf open closed. subst open closed.
  assert (Hopen : file_lines (join_lines lines +:+ final)
                  = lines ++ (if is_empty final then [] else [final])).
  { by rewrite (file_lines_join_app _ _ Hnl), (file_lines_single _ Hf). }
  assert (Hclosed : file_lines (join_lines (lines ++ [final])) = lines ++ [final]).
  { apply file_lines_join. apply Forall_app. split; [done|]. by constructor. }
  assert (Hcfg : config_lines stod stoi (file_lines (join_lines lines +:+ final)) config
                 = config_lines stod stoi (file_lines (join_lines (lines ++ [final]))) config).
  { rewrite Hopen, Hclosed. destruct final as [|a final]; [|done].
    rewrite !config_lines_app_general.
    by destruct (config_lines stod stoi lines config) as [[e|] c1]. }
  unfold loadConfig. rewrite Hcfg. clear Hcfg.
  destruct (config_lines _ _ _ config) as [e c1]. do 2 (split; [done|]).
  rewrite !loadRegisteredVehicles_data, !data_lines_tail, Hopen, Hclosed.
  destruct final as [|a final]; [|done]. cbn [is_empty].
  rewrite app_nil_r. destruct lines as [|l lines]; [done|].
  cbn [app tail]. by rewrite load_rows_app.
Qed.

Lemma final_newline_is_optional_witness :
  Forall (fun l => no_char nl l = true) [registry_header; "ABC123,RF1234567,100.0,car"]
  /\ no_char nl "XYZ789,RF7654321,250.0,truck" = true
  /\ registeredVehicles
       (loadRegisteredVehicles sample_time
          (Some (join_lines [registry_header; "ABC123,RF1234567,100.0,car"]
                 +:+ "XYZ789,RF7654321,250.0,truck")) new_system)
     = registeredVehicles
         (loadRegisteredVehicles sample_time (Some readme_registry) new_system).
Proof.
  assert (H1 : Forall (fun l => no_char nl l = true)
                 [registry_header; "ABC123,RF1234567,100.0,car"])
    by (repeat constructor).
  assert (H2 : no_char nl "XYZ789,RF7654321,250.0,truck" = true) by reflexivity.
  split; [exact H1|]. split; [exact H2|].
  exact (proj2 (proj2 (final_newline_is_optional std_stod std_stoi true sample_time
                         [registry_header; "ABC123,RF1234567,100.0,car"]
                         "XYZ789,RF7654321,250.0,truck"
                         (fresh_config 0 0 0) new_system H1 H2))).
Defined.

(** ** More on registry load *)

(** X9.  Whatever the type column of a well-formed row says, the loop stores
    the vehicle of that row under the rfid of its second column with the plate
    of its first column, the binary64 nearest to the decimal of its third
    column as balance, and the unknown class: the type column is never read.
    When that decimal is above the range of [double] the row changes
    nothing. *)
Theorem well_formed_row_stored_without_type
    (vehicles : gmap string Vehicle) (line : string) :
  well_formed_row line = true ->
  load_row vehicles line =
  match to_binary64 (decimal_of (nth 2 (split_fields line) EmptyString)) with
  | Some v =>
      <[row_rfid line :=
          {| plate := nth 0 (split_fields line) EmptyString;
             rfidTag := row_rfid line;
             vehicleClass := unknown;
             balance := v |}]> vehicles
  | None => vehicles
  end.
Proof.
  intros H. unfold load_row. rewrite (parse_row_well_formed _ H).
  unfold row_balance, row_plate. by destruct (to_binary64 _).
Qed.

Lemma well_formed_row_stored_without_type_witness :
  well_formed_row "XYZ789,RF7654321,250.1,truck" = true
  /\ load_row ∅ "XYZ789,RF7654321,250.1,truck" =
     <["RF7654321" :=
         {| plate := "XYZ789"; rfidTag := "RF7654321";
            vehicleClass := unknown;
            balance := (8799611459416883 # 35184372088832)%Q |}]> ∅.
Proof.
  assert (H : well_formed_row "XYZ789,RF7654321,250.1,truck" = true) by reflexivity.
  split; [exact H|].
  exact (well_formed_row_stored_without_type ∅ "XYZ789,RF7654321,250.1,truck" H).
Defined.

Lemma parse_row_Some_inv line p r b t :
  parse_row line = Some (p, r, b, t) ->
  no_char comma p = true /\ no_char comma r = true
  /\ nth 0 (split_fields line) EmptyString = p /\ row_rfid line = r.
Proof.
  unfold parse_row. rewrite getline_open.
  destruct (take_until comma line) as [w1 [rest1|]] eqn:T1.
  - change (ok (open_on rest1)) with true. cbv iota. rewrite getline_open.
    destruct (take_until comma rest1) as [w2 [rest2|]] eqn:T2.
    + change (ok (open_on rest2)) with true. cbv iota.
      destruct (extract_double (open_on rest2)) as [iss3 v].
      destruct (ok iss3); [|done].
      destruct (getline iss3 comma) as [iss4 ty]. destruct (ok iss4); [|done].
      intros [= <- <- <- <-].
      apply take_until_Some_inv in T1 as [-> H1].
      apply take_until_Some_inv in T2 as [-> H2].
      unfold row_rfid. rewrite (split_fields_cons _ _ H1), (split_fields_cons _ _ H2).
      done.
    + destruct (ok _); [|done].
      pose proof (extract_double_not_good
                    {| buf := EmptyString; eofbit := true; failbit := is_empty w2 |} eq_refl) as Hn.
      destruct (extract_double _) as [iss3 v]. simpl in Hn. by rewrite Hn.
  - destruct (ok _); [|done].
    pose proof (getline_not_good
                  {| buf := EmptyString; eofbit := true; failbit := is_empty w1 |}
                  comma eq_refl) as Hn.
    destruct (getline _ comma) as [iss2 x]. simpl in Hn. by rewrite Hn.
Qed.

Lemma accepted_rows_elem v lines :
  v ∈ accepted_rows lines ->
  exists line p r b t,
    line ∈ lines /\ parse_row line = Some (p, r, b, t) /\ v = Vehicle_new p r b t.
Proof.
  unfold accepted_rows. rewrite list_elem_of_omap. intros (line & Hin & H).
  destruct (parse_row line) as [[[[p r] b] t]|] eqn:E; [|done].
  injection H as <-. by exists line, p, r, b, t.
Qed.

Lemma last_with_rfid_Some id vs v :
  last_with_rfid id vs = Some v -> v ∈ vs /\ rfidTag v = id.
Proof.
  unfold last_with_rfid. intros H%last_Some_elem_of.
  apply list_elem_of_filter in H as [? ?]. done.
Qed.

Lemma last_with_rfid_None id vs :
  last_with_rfid id vs = None <-> forall v, v ∈ vs -> rfidTag v <> id.
Proof.
  unfold last_with_rfid. rewrite last_None. split.
  - intros H v Hv Hid.
    assert (Hin : v ∈ filter (fun v => rfidTag v = id) vs)
      by (by apply list_elem_of_filter).
    rewrite H in Hin. by apply elem_of_nil in Hin.
  - intros H. destruct (filter _ vs) as [|v l] eqn:E; [done|].
    assert (Hin : v ∈ filter (fun v => rfidTag v = id) vs)
      by (rewrite E; apply list_elem_of_here).
    apply list_elem_of_filter in Hin as [Hid Hv]. by destruct (H v Hv).
Qed.

(** X10.  Registry load keeps the registry well keyed: when every entry it
    starts from is filed under the rfid of its vehicle, with no comma in the
    rfid or the plate, so is every entry after the load, whether the file
    could be opened or not. *)
Theorem load_keeps_registry_well_keyed
    (now : tm) (file : option string) (sys : TollSystem) (k : string) (v : Vehicle) :
  (forall k' v', registeredVehicles sys !! k' = Some v' -> well_keyed k' v') ->
  registeredVehicles (loadRegisteredVehicles now file sys) !! k = Some v ->
  well_keyed k v.
Proof.
  intros Hinv. destruct file as [text|]; [|apply Hinv].
  rewrite loadRegisteredVehicles_data, load_rows_accepted, insert_all_lookup.
  destruct (last_with_rfid k _) as [v'|] eqn:E; [|apply Hinv].
  intros [= ->]. apply last_with_rfid_Some in E as [Hin Hid].
  apply accepted_rows_elem in Hin as (line & p & r & b & t & _ & Hp & ->).
  apply parse_row_Some_inv in Hp as (Hpc & Hrc & _ & _).
  cbn in Hid. subst r. done.
Qed.

Lemma load_keeps_registry_well_keyed_witness :
  (forall k' v', registeredVehicles new_system !! k' = Some v' -> well_keyed k' v')
  /\ registeredVehicles (loadRegisteredVehicles sample_time (Some readme_registry) new_system)
       !! "RF7654321"
     = Some {| plate := "XYZ789"; rfidTag := "RF7654321";
               vehicleClass := unknown; balance := 250%Q |}
  /\ well_keyed "RF7654321"
       {| plate := "XYZ789"; rfidTag := "RF7654321";
          vehicleClass := unknown; balance := 250%Q |}.
Proof.
  assert (H1 : forall k' v',
             registeredVehicles new_system !! k' = Some v' -> well_keyed k' v').
  { intros k' v' H. cbn in H. by rewrite lookup_empty in H. }
  assert (H2 : registeredVehicles
                 (loadRegisteredVehicles sample_time (Some readme_registry) new_system)
                 !! "RF7654321"
               = Some {| plate := "XYZ789"; rfidTag := "RF7654321";
                         vehicleClass := unknown; balance := 250%Q |})
    by (vm_compute; reflexivity).
  split; [exact H1|]. split; [exact H2|].
  exact (load_keeps_registry_well_keyed sample_time (Some readme_registry) new_system
           "RF7654321" _ H1 H2).
Defined.

(** X11.  Registry load never removes a vehicle: every rfid that had an entry
    before the load has one after it, and the entry of an rfid that is the
    second column of no row of the file is exactly what it was.  Vehicles
    that are no longer in the file therefore stay registered. *)
Theorem load_never_removes_a_vehicle
    (now : tm) (file : option string) (sys : TollSystem) :
  let loaded := loadRegisteredVehicles now file sys in
  (forall k, is_Some (registeredVehicles sys !! k) ->
             is_Some (registeredVehicles loaded !! k))
  /\ (forall k,
        (forall text line, file = Some text -> line ∈ data_lines text -> row_rfid line <> k) ->
        registeredVehicles loaded !! k = registeredVehicles sys !! k).
Proof.
  intros loaded. subst loaded. destruct file as [text|]; [|done].
  rewrite loadRegisteredVehicles_data, load_rows_accepted. split.
  - intros k Hk. rewrite insert_all_lookup. by destruct (last_with_rfid k _).
  - intros k Hk. rewrite insert_all_lookup.
    destruct (last_with_rfid k _) as [v|] eqn:E; [|done].
    apply last_with_rfid_Some in E as [Hin Hid].
    apply accepted_rows_elem in Hin as (line & p & r & b & t & Hl & Hp & ->).
    apply parse_row_Some_inv in Hp as (_ & _ & _ & Hr).
    cbn in Hid. subst r. by destruct (Hk text line eq_refl Hl).
Qed.

Lemma last_with_rfid_Permutation id vs vs' :
  vs ≡ₚ vs' -> NoDup (rfidTag <$> vs) ->
  last_with_rfid id vs = last_with_rfid id vs'.
Proof.
  intros Hp Hnd.
  assert (Hone : forall l : list Vehicle,
             NoDup (rfidTag <$> l) ->
             forall a b, a ∈ l -> b ∈ l -> rfidTag a = rfidTag b -> a = b).
  { intros l Hl a b Ha Hb Hab.
    apply list_elem_of_lookup in Ha as [i Hi]. apply list_elem_of_lookup in Hb as [j Hj].
    assert (i = j).
    { eapply (NoDup_lookup _ i j (rfidTag a)); [exact Hl|..].
      - by rewrite list_lookup_fmap, Hi.
      - by rewrite list_lookup_fmap, Hj, Hab. }
    subst j. congruence. }
  assert (Hnd' : NoDup (rfidTag <$> vs')) by (by rewrite <- Hp).
  destruct (last_with_rfid id vs) as [v|] eqn:E.
  - apply last_with_rfid_Some in E as [Hin Hid].
    destruct (last_with_rfid id vs') as [v'|] eqn:E'.
    + apply last_with_rfid_Some in E' as [Hin' Hid'].
      f_equal. apply (Hone vs' Hnd'); [by rewrite <- Hp|done|congruence].
    + rewrite last_with_rfid_None in E'. destruct (E' v); [by rewrite <- Hp|done].
  - symmetry. rewrite last_with_rfid_None in *. intros v Hv. apply E. by rewrite Hp.
Qed.

(** X12.  When the rows that the loader accepts carry pairwise distinct
    rfids, the order of the rows after the header does not matter: any
    rearrangement of them loads to the same registry. *)
Theorem row_order_is_irrelevant
    (now : tm) (header : string) (rows rows' : list string) (sys : TollSystem) :
  no_char nl header = true ->
  Forall (fun r => no_char nl r = true) rows ->
  rows ≡ₚ rows' ->
  NoDup (rfidTag <$> accepted_rows rows) ->
  registeredVehicles (loadRegisteredVehicles now (Some (join_lines (header :: rows))) sys)
  = registeredVehicles (loadRegisteredVehicles now (Some (join_lines (header :: rows'))) sys).
Proof.
  intros Hh Hrows Hperm Hnd.
  assert (Hrows' : Forall (fun r => no_char nl r = true) rows') by (by rewrite <- Hperm).
  rewrite !loadRegisteredVehicles_data. cbn [join_lines].
  rewrite !(data_lines_cons _ _ Hh), !file_lines_join by done.
  rewrite !load_rows_accepted. apply map_eq. intros id.
  rewrite !insert_all_lookup.
  rewrite (last_with_rfid_Permutation id (accepted_rows rows) (accepted_rows rows')); [done| |done].
  unfold accepted_rows. by rewrite Hperm.
Qed.

Lemma row_order_is_irrelevant_witness :
  no_char nl registry_header = true
  /\ Forall (fun r => no_char nl r = true)
       ["ABC123,RF1234567,100.0,car"; "XYZ789,RF7654321,250.0,truck"]
  /\ NoDup (rfidTag <$> accepted_rows
              ["ABC123,RF1234567,100.0,car"; "XYZ789,RF7654321,250.0,truck"])
  /\ registeredVehicles (loadRegisteredVehicles sample_time (Some readme_registry) new_system)
     = registeredVehicles
         (loadRegisteredVehicles sample_time
            (Some (join_lines [registry_header; "XYZ789,RF7654321,250.0,truck";
                               "ABC123,RF1234567,100.0,car"])) new_system).
Proof.
  assert (H1 : no_char nl registry_header = true) by reflexivity.
  assert (H2 : Forall (fun r => no_char nl r = true)
                 ["ABC123,RF1234567,100.0,car"; "XYZ789,RF7654321,250.0,truck"])
    by (repeat constructor).
  assert (H3 : ["ABC123,RF1234567,100.0,car"; "XYZ789,RF7654321,250.0,truck"]
               ≡ₚ ["XYZ789,RF7654321,250.0,truck"; "ABC123,RF1234567,100.0,car"])
    by apply Permutation_swap.
  assert (H4 : NoDup (rfidTag <$> accepted_rows
                        ["ABC123,RF1234567,100.0,car"; "XYZ789,RF7654321,250.0,truck"]))
    by (apply (bool_decide_unpack _); vm_compute; exact I).
  split; [exact H1|]. split; [exact H2|]. split; [exact H4|].
  exact (row_order_is_irrelevant sample_time registry_header _ _ new_system H1 H2 H3 H4).
Defined.

(** X13.  A registry file can be cut in two: loading the header with all the
    rows gives the registry that results from loading the header with the
    first rows and then, into that system, the header with the remaining
    rows. *)
Theorem registry_files_compose
    (now : tm) (header : string) (rows more : list string) (sys : TollSystem) :
  no_char nl header = true ->
  Forall (fun r => no_char nl r = true) (rows ++ more) ->
  registeredVehicles
    (loadRegisteredVehicles now (Some (join_lines (header :: rows ++ more))) sys)
  = registeredVehicles
      (loadRegisteredVehicles now (Some (join_lines (header :: more)))
         (loadRegisteredVehicles now (Some (join_lines (header :: rows))) sys)).
Proof.
  intros Hh Hall. apply Forall_app in Hall as [Hrows Hmore].
  rewrite !loadRegisteredVehicles_data. cbn [join_lines].
  rewrite !(data_lines_cons _ _ Hh), !file_lines_join; try done.
  - apply load_rows_app.
  - by apply Forall_app.
Qed.

Lemma registry_files_compose_witness :
  no_char nl registry_header = true
  /\ Forall (fun r => no_char nl r = true)
       (["ABC123,RF1234567,100.0,car"] ++ ["XYZ789,RF7654321,250.0,truck"])
  /\ registeredVehicles (loadRegisteredVehicles sample_time (Some readme_registry) new_system)
     = registeredVehicles
         (loadRegisteredVehicles sample_time
            (Some (join_lines [registry_header; "XYZ789,RF7654321,250.0,truck"]))
            (loadRegisteredVehicles sample_time
               (Some (join_lines [registry_header; "ABC123,RF1234567,100.0,car"]))
               new_system)).
Proof.
  assert (H1 : no_char nl registry_header = true) by reflexivity.
  assert (H2 : Forall (fun r => no_char nl r = true)
                 (["ABC123,RF1234567,100.0,car"] ++ ["XYZ789,RF7654321,250.0,truck"]))
    by (repeat constructor).
  split; [exact H1|]. split; [exact H2|].
  exact (registry_files_compose sample_time registry_header
           ["ABC123,RF1234567,100.0,car"] ["XYZ789,RF7654321,250.0,truck"]
           new_system H1 H2).
Defined.

(** ** The images written by [processVehicleByCamera] *)

Lemma string_app_inv_tail s t u : s +:+ u = t +:+ u -> s = t.
Proof.
  revert t. induction s as [|a s IH]; intros [|b t] H.
  - done.
  - apply (f_equal String.length) in H.
    rewrite !string_length_app in H. simpl in H. lia.
  - apply (f_equal String.length) in H.
    rewrite !string_length_app in H. simpl in H. lia.
  - rewrite !string_app_cons in H. injection H as -> H. f_equal. auto.
Qed.

Lemma show_N_inj n m : (0 <= n)%Z -> (0 <= m)%Z -> show_N n = show_N m -> n = m.
Proof.
  intros Hn Hm H. unfold show_N in H.
  assert (Hu : N.to_uint (Z.to_N n) = N.to_uint (Z.to_N m)).
  { apply (f_equal NilEmpty.uint_of_string) in H.
    rewrite !NilEmpty.usu in H. by injection H. }
  apply DecimalN.Unsigned.to_uint_inj in Hu. lia.
Qed.

Lemma show_N_not_minus n rest : show_N n <> "-" +:+ rest.
Proof.
  intros H. pose proof (show_N_digits n) as Hd. rewrite H in Hd. done.
Qed.

Lemma to_string_inj n m : to_string n = to_string m -> n = m.
Proof.
  unfold to_string. destruct n as [|p|p], m as [|q|q]; intros H;
    try (by apply show_N_inj in H);
    try (by apply show_N_not_minus in H);
    try (by symmetry in H; apply show_N_not_minus in H).
  apply (string_app_inv_head "-") in H. apply show_N_inj in H; [|done..].
  by injection H as ->.
Qed.

Lemma to_string_no_separator n : no_char "/" (to_string n) = true.
Proof.
  assert (H : forall m, no_char "/" (show_N m) = true).
  { intros m. by apply (chars_in_no_char isdigit), show_N_digits. }
  unfold to_string. destruct n as [|q|q]; [apply H..|].
  by rewrite no_char_app, H.
Qed.

Lemma image_name_plain prefix c n :
  no_char "/" (String c prefix) = true -> Ascii.eqb c "." = false ->
  plain_name ((String c prefix +:+ to_string n) +:+ ".jpg") = true.
Proof.
  intros Hp Hc. unfold plain_name.
  rewrite !no_char_app, Hp, to_string_no_separator, !string_app_cons.
  cbn [is_empty negb andb no_char String.eqb Ascii.eqb].
  by rewrite Hc.
Qed.

(** X14.  The images that [processVehicleByCamera] writes never overwrite one
    another across clock readings: the path of the saved vehicle image and
    the path of the saved plate image are each different for different tick
    counts, a vehicle image path is never a plate image path, and both lie
    directly in directories that [createDirectoryStructure] creates. *)
Theorem image_paths_are_distinct (fm : FileManager) (ticks ticks' : Z) :
  (vehicle_image_path fm ticks = vehicle_image_path fm ticks' -> ticks = ticks')
  /\ (plate_image_path fm ticks = plate_image_path fm ticks' -> ticks = ticks')
  /\ vehicle_image_path fm ticks <> plate_image_path fm ticks'
  /\ (exists d, d ∈ createDirectoryStructure fm /\ file_in d (vehicle_image_path fm ticks))
  /\ (exists d, d ∈ createDirectoryStructure fm /\ file_in d (plate_image_path fm ticks)).
Proof.
  unfold vehicle_image_path, plate_image_path, getOutputPath.
  split; [|split; [|split; [|split]]].
  - rewrite !string_app_assoc. intros H.
    apply string_app_inv_head in H.
    apply (string_app_inv_head "/output/processed_images/vehicle_") in H.
    apply string_app_inv_tail in H. by apply to_string_inj.
  - rewrite !string_app_assoc. intros H.
    apply string_app_inv_head in H.
    apply (string_app_inv_head "/output/captured_plates/plate_") in H.
    apply string_app_inv_tail in H. by apply to_string_inj.
  - rewrite !string_app_assoc. intros H.
    apply string_app_inv_head in H. by apply (string_app_inv_head "/output/") in H.
  - exists ((baseDir fm +:+ "/") +:+ "output/processed_images"). split.
    + unfold createDirectoryStructure, dirs. rewrite list_elem_of_In.
      apply in_map. simpl. auto 10.
    + eexists. split; [by apply (image_name_plain "ehicle_" "v" ticks)|].
      by rewrite !string_app_assoc.
  - exists ((baseDir fm +:+ "/") +:+ "output/captured_plates"). split.
    + unfold createDirectoryStructure, dirs. rewrite list_elem_of_In.
      apply in_map. simpl. auto 10.
    + eexists. split; [by apply (image_name_plain "late_" "p" ticks)|].
      by rewrite !string_app_assoc.
Qed.

(** ** The transaction log over several calls *)

Lemma is_empty_app s t : is_empty (s +:+ t) = is_empty s && is_empty t.
Proof. by destruct s. Qed.

Lemma logTransaction_not_empty now vehicleId method amount remaining lg :
  is_empty (transactionLog (logTransaction now vehicleId method amount remaining lg)) = false.
Proof.
  unfold logTransaction, ctime. cbn [transactionLog].
  rewrite !is_empty_app. cbn [is_empty]. by rewrite !andb_false_r.
Qed.

(** X15.  Opening the logs again adds no second header: a [Logger] built on
    the files another [Logger] left is that same [Logger], straight after
    construction as well as after a transaction has been logged, so the
    header stays the first line of the file and occurs there only. *)
Theorem reopening_adds_no_header
    (transactions errors : string) (now : tm) (vehicleId method : string)
    (amount remaining : double) :
  let lg := Logger_new transactions errors in
  let lg' := logTransaction now vehicleId method amount remaining lg in
  Logger_new (transactionLog lg) (errorLog lg) = lg
  /\ Logger_new (transactionLog lg') (errorLog lg') = lg'.
Proof.
  intros lg lg'. split.
  - subst lg. unfold Logger_new. cbn [transactionLog errorLog].
    by destruct transactions.
  - unfold Logger_new. subst lg'. rewrite logTransaction_not_empty. done.
Qed.





(** ** The last assignment and the accepted rows *)

(** X17.  The last assignment of a toll rate wins.  When a source loads
    without an exception, the same source followed by a line
    [toll_rate_<class>=<value>], for car, truck or bus and a value that the
    conversion accepts, loads without an exception too and leaves the
    configuration of the shorter source with the rate of that class replaced
    by the converted value, whatever the earlier lines had assigned to it. *)
Theorem last_rate_assignment_wins
    (stod : string -> exn + double) (stoi : string -> exn + Z) (writable : bool)
    (lines : list string) (class value : string) (v : double) (config : SystemConfig) :
  Forall (fun l => no_char nl l = true) lines ->
  class ∈ rate_classes ->
  no_char nl value = true -> value <> EmptyString ->
  stod value = inr v ->
  thrown (loadConfig stod stoi writable (Some (join_lines lines)) config) = None ->
  let line := key_value_line ("toll_rate_" +:+ class) value in
  let r := loadConfig stod stoi writable (Some (join_lines (lines ++ [line]))) config in
  thrown r = None
  /\ config_after r
     = set_tollRate class v
         (config_after (loadConfig stod stoi writable (Some (join_lines lines)) config))
  /\ tollRates (config_after r) !! class = Some v.
Proof.
  intros Hnl Hclass Hv Hne Hconv Hok line r.
  assert (Hline : no_char nl line = true /\
                  forall c, config_line stod stoi line c = inr (set_tollRate class v c)).
  { subst line. unfold rate_classes in Hclass.
    rewrite list_elem_of_In in Hclass. simpl in Hclass.
    destruct Hclass as [<-|[<-|[<-|[]]]]; (split;
      [unfold key_value_line; rewrite no_char_app; simpl; exact Hv
      |intros c; rewrite config_line_key_value by done;
       unfold assign; simpl; by rewrite Hconv]). }
  destruct Hline as [Hlnl Hline].
  subst r. unfold loadConfig in *.
  rewrite (file_lines_join _ Hnl) in Hok. rewrite (file_lines_join _ Hnl).
  rewrite file_lines_join by (apply Forall_app; split; [done|by constructor]).
  rewrite config_lines_app_general.
  destruct (config_lines stod stoi lines config) as [e c1]. cbn in Hok. subst e.
  cbn [config_lines]. rewrite Hline. cbn [thrown config_after].
  split; [done|]. split; [done|]. apply lookup_insert_eq.
Qed.

Lemma last_rate_assignment_wins_witness :
  Forall (fun l => no_char nl l = true) ["toll_rate_car=50.0"; "camera_fps=30"]
  /\ "car" ∈ rate_classes
  /\ std_stod "60.5" = inr (121 # 2)%Q
  /\ tollRates (config_after
       (loadConfig std_stod std_stoi true
          (Some (join_lines (["toll_rate_car=50.0"; "camera_fps=30"]
                             ++ [key_value_line ("toll_rate_" +:+ "car") "60.5"])))
          (fresh_config 0 0 0))) !! "car" = Some (121 # 2)%Q.
Proof.
  assert (H1 : Forall (fun l => no_char nl l = true) ["toll_rate_car=50.0"; "camera_fps=30"])
    by (repeat constructor).
  assert (H2 : "car" ∈ rate_classes) by (apply list_elem_of_here).
  assert (H3 : std_stod "60.5" = inr (121 # 2)%Q) by reflexivity.
  assert (H4 : thrown (loadConfig std_stod std_stoi true
                         (Some (join_lines ["toll_rate_car=50.0"; "camera_fps=30"]))
                         (fresh_config 0 0 0)) = None) by reflexivity.
  assert (H5 : "60.5" <> EmptyString) by discriminate.
  split; [exact H1|]. split; [exact H2|]. split; [exact H3|].
  exact (proj2 (proj2 (last_rate_assignment_wins std_stod std_stoi true
                         ["toll_rate_car=50.0"; "camera_fps=30"] "car" "60.5" (121 # 2)%Q
                         (fresh_config 0 0 0) H1 H2 eq_refl H5 H3 H4))).
Defined.

Lemma scan_float_empty : scan_float EmptyString = None.
Proof. done. Qed.

Lemma getline_type rest :
  rest <> EmptyString ->
  let r := getline {| buf := rest; eofbit := is_empty rest; failbit := false |} comma in
  ok r.1 = true /\ r.2 = (take_until comma rest).1.
Proof.
  intros Hne. destruct rest as [|a rest]; [done|].
  unfold getline. cbn [good buf eofbit failbit is_empty negb andb].
  destruct (take_until comma (String a rest)) as [w [rest'|]] eqn:T; [done|].
  apply take_until_None_inv in T as [<- _]. done.
Qed.

(** X18.  The rows the loop accepts are exactly these: a first column and a
    second column, each ended by a comma, then, after optional white space,
    a number within the range of [double], as [scan_float] reads it, that is
    followed by at least one more character.  The plate and the rfid are the
    two columns, the balance is the binary64 nearest to the number, and the
    type is whatever stands between the end of the number and the next
    comma.  Every other row is skipped; in particular a row that ends with
    its balance is skipped, and so is a row whose number is above the range
    of [double]. *)
Theorem accepted_rows_characterised (line p r t : string) (v : double) :
  parse_row line = Some (p, r, v, t) <->
  exists s rest,
    line = p +:+ String comma (r +:+ String comma s)
    /\ no_char comma p = true /\ no_char comma r = true
    /\ scan_float (skip_ws s) = Some (v, rest)
    /\ rest <> EmptyString
    /\ t = (take_until comma rest).1.
Proof.
  split.
  - unfold parse_row. rewrite getline_open.
    destruct (take_until comma line) as [w1 [rest1|]] eqn:T1.
    + change (ok (open_on rest1)) with true. cbv iota. rewrite getline_open.
      destruct (take_until comma rest1) as [w2 [rest2|]] eqn:T2.
      * change (ok (open_on rest2)) with true. cbv iota.
        apply take_until_Some_inv in T1 as [-> H1].
        apply take_until_Some_inv in T2 as [-> H2].
        unfold extract_double. cbn [good open_on buf eofbit failbit negb andb].
        destruct (skip_ws rest2) as [|c s'] eqn:Ews; [done|].
        destruct (scan_float (String c s')) as [[v' rest]|] eqn:Esc; [|done].
        cbn [ok failbit negb].
        destruct rest as [|a rest].
        -- pose proof (getline_not_good
                         {| buf := EmptyString; eofbit := true; failbit := false |}
                         comma eq_refl) as Hn.
           cbn [is_empty]. destruct (getline _ comma) as [iss4 ty].
           simpl in Hn. by rewrite Hn.
        -- destruct (getline_type (String a rest)) as [Hok Hty]; [done|].
           cbn [is_empty] in *.
           destruct (getline _ comma) as [iss4 ty]. cbn [fst snd] in *.
           rewrite Hok. intros [= <- <- <- <-].
           exists rest2, (String a rest). rewrite Ews. done.
      * destruct (ok _); [|done].
        pose proof (extract_double_not_good
                      {| buf := EmptyString; eofbit := true; failbit := is_empty w2 |}
                      eq_refl) as Hn.
        destruct (extract_double _) as [iss3 x]. simpl in Hn. by rewrite Hn.
    + destruct (ok _); [|done].
      pose proof (getline_not_good
                    {| buf := EmptyString; eofbit := true; failbit := is_empty w1 |}
                    comma eq_refl) as Hn.
      destruct (getline _ comma) as [iss2 x]. simpl in Hn. by rewrite Hn.
  - intros (s & rest & -> & Hp & Hr & Hsc & Hne & ->).
    unfold parse_row. next_field Hp. next_field Hr.
    unfold extract_double. cbn [good open_on buf eofbit failbit negb andb].
    destruct (skip_ws s) as [|c s'] eqn:Ews; [by rewrite scan_float_empty in Hsc|].
    rewrite Hsc. cbn [ok failbit negb].
    destruct (getline_type rest Hne) as [Hok Hty].
    destruct (getline _ comma) as [iss4 ty]. cbn [fst snd] in *.
    by rewrite Hok, Hty.
Qed.

(** ** The new notions on concrete inputs *)

Example to_binary64_samples :
  to_binary64 (1 # 10) = Some (3602879701896397 # 36028797018963968)%Q
  /\ to_binary64 (9007199254740993 # 1) = Some (9007199254740992 # 1)%Q
  /\ to_binary64 (9007199254740995 # 1) = Some (9007199254740996 # 1)%Q
  /\ to_binary64 (- (11 # 2)) = Some (- (11 # 2))%Q
  /\ to_binary64 (17976931348623157 * 10 ^ 292 # 1) = Some (2 ^ 1024 - 2 ^ 971 # 1)%Q
  /\ to_binary64 (17976931348623159 * 10 ^ 292 # 1) = None
  /\ to_binary64 (10 ^ 400 # 1) = None
  /\ to_binary64 (3 # Z.to_pos (10 ^ 324)) = Some (1 # Z.to_pos (2 ^ 1074))%Q
  /\ to_binary64 (1 # Z.to_pos (10 ^ 400)) = Some 0%Q.
Proof. vm_compute. done. Qed.

Example scan_float_samples :
  scan_float "0.1,car" = Some ((3602879701896397 # 36028797018963968)%Q, ",car")
  /\ scan_float "12 abc" = Some (12%Q, " abc")
  /\ scan_float "1e3x" = Some (1000%Q, "x")
  /\ scan_float "1e" = None
  /\ scan_float "0x1A" = Some (0%Q, "x1A")
  /\ scan_float "inf" = None
  /\ scan_float "1e400," = None
  /\ scan_float (repeat_char "9" 400 +:+ ",car") = None.
Proof. vm_compute. done. Qed.

Example std_stod_samples :
  map std_stod ["50.0"; " 7.5e1abc"; "0x1A"; "-0x1.8p1"; "1e400"; "1e-400"; "4e-320";
                "abc"; ""; "1e"]
  = [inr 50%Q; inr 75%Q; inr 26%Q; inr (- 3)%Q; inl out_of_range; inl out_of_range;
     inl out_of_range; inl invalid_argument; inl invalid_argument; inr 1%Q].
Proof. vm_compute. reflexivity. Qed.

Example decimal_of_samples :
  map decimal_of ["100.0"; "250"; "-5.5"; "0.125"]
  = [100%Q; 250%Q; (- (11 # 2))%Q; (1 # 8)%Q].
Proof. vm_compute. reflexivity. Qed.

Example skipped_line_samples :
  map skipped_line [""; "# Toll Rates"; "camera_fps"; "camera_fps="; " camera_fps=30";
                    "colour=red"; "camera_fps=30"; "toll_rate_car=abc"]
  = [true; true; true; true; true; true; false; false].
Proof. vm_compute. reflexivity. Qed.

Example image_path_samples :
  vehicle_image_path FileManager_default 1730597465000000000
    = "ai_toll_system/output/processed_images/vehicle_1730597465000000000.jpg"
  /\ plate_image_path FileManager_default 1730597465000000000
    = "ai_toll_system/output/captured_plates/plate_1730597465000000000.jpg"
  /\ getConfigPath FileManager_default "config.txt" = "ai_toll_system/config/config.txt"
  /\ getLogPath FileManager_default "error_log.txt" = "ai_toll_system/logs/error_log.txt".
Proof. vm_compute. done. Qed.
